(** * InducedSubgraphsViewer: the database model and the induced-subgraph query

    A shallow embedding of [src/model/graph_db.py].  The TinyDB table is a
    list of documents in insertion order; every function of the module that
    reads or writes the global [db] takes the table and returns the new
    table together with its Python return value. *)

From Stdlib Require Import ZArith Lia List Bool Permutation Sorted Ascii String.
From stdpp Require Import base decidable list sorting gmap sets strings pretty.
Import ListNotations.

Local Open Scope Z_scope.

(** ** Documents

    The four shapes of dict the module inserts with [db.insert]:
    [{'type': 'node', 'g_id', 'u_id', 'x', 'y'}],
    [{'type': 'edge', 'g_id', 'u_id', 'v_id'}],
    [{'type': 'iso', 'g_id'}] and
    [{'type': 'properties', 'g_id', 'name'}]. *)

Inductive document : Type :=
| NodeDoc (g_id u_id x y : Z)
| EdgeDoc (g_id u_id v_id : Z)
| IsoDoc (g_id : Z)
| PropertiesDoc (g_id : Z) (name : string).

#[global] Instance document_eq_dec : EqDecision document.
Proof. solve_decision. Defined.

Definition database : Type := list document.

(** [x['g_id']] *)
Definition doc_g_id (d : document) : Z :=
  match d with
  | NodeDoc g _ _ _ | EdgeDoc g _ _ | IsoDoc g | PropertiesDoc g _ => g
  end.

(** [y = dict(x); y['g_id'] = g] *)
Definition set_g_id (g : Z) (d : document) : document :=
  match d with
  | NodeDoc _ u x y => NodeDoc g u x y
  | EdgeDoc _ u v => EdgeDoc g u v
  | IsoDoc _ => IsoDoc g
  | PropertiesDoc _ n => PropertiesDoc g n
  end.

(** ** Queries *)

Module Q.

(** [q.type == 'node'] *)
Definition is_node (d : document) : bool :=
  match d with NodeDoc _ _ _ _ => true | _ => false end.

(** [q.type == 'iso'] *)
Definition is_iso (d : document) : bool :=
  match d with IsoDoc _ => true | _ => false end.

(** [(q.type == 'iso') & (q.g_id == g_id)] *)
Definition iso_of (g : Z) (d : document) : bool :=
  match d with IsoDoc g' => g' =? g | _ => false end.

(** [(q.type == 'node') & (q.g_id == g_id)] *)
Definition node_in (g : Z) (d : document) : bool :=
  match d with NodeDoc g' _ _ _ => g' =? g | _ => false end.

(** [(q.type == 'edge') & (q.g_id == g_id)] *)
Definition edge_in (g : Z) (d : document) : bool :=
  match d with EdgeDoc g' _ _ => g' =? g | _ => false end.

(** [(q.type == 'node') & (q.g_id == g_id) & (q.u_id == u_id)] *)
Definition node_of (g u : Z) (d : document) : bool :=
  match d with NodeDoc g' u' _ _ => (g' =? g) && (u' =? u) | _ => false end.

(** [(q.type == 'node') & (q.g_id == g_id) & ((q.u_id == u_id) | (q.u_id == v_id))] *)
Definition node_among (g u v : Z) (d : document) : bool :=
  match d with
  | NodeDoc g' u' _ _ => (g' =? g) && ((u' =? u) || (u' =? v))
  | _ => false
  end.

(** [(q.type == 'edge') & (q.g_id == g_id) & (q.u_id == u_id) & (q.v_id == v_id)] *)
Definition edge_of (g u v : Z) (d : document) : bool :=
  match d with
  | EdgeDoc g' u' v' => (g' =? g) && (u' =? u) && (v' =? v)
  | _ => false
  end.

(** [(q.type == 'edge') & (q.g_id == g_id) & ((q.u_id == u_id) | (q.v_id == u_id))] *)
Definition edge_at (g u : Z) (d : document) : bool :=
  match d with
  | EdgeDoc g' u' v' => (g' =? g) && ((u' =? u) || (v' =? u))
  | _ => false
  end.

(** [(q.type == 'properties') & (q.g_id == g_id)] *)
Definition properties_of (g : Z) (d : document) : bool :=
  match d with PropertiesDoc g' _ => g' =? g | _ => false end.

(** [where('g_id') == g_id] *)
Definition of_graph (g : Z) (d : document) : bool := doc_g_id d =? g.

(** [(q.g_id == g1_id) & (q.type != 'iso')] *)
Definition copied_from (g : Z) (d : document) : bool :=
  (doc_g_id d =? g) && negb (is_iso d).

End Q.

(** ** TinyDB primitives *)

(** [db.search(cond)]: the matching documents, in table order. *)
Definition search (cond : document -> bool) (db : database) : list document :=
  List.filter cond db.

(** [db.insert(doc)]: the document gets the next id, so it is last. *)
Definition insert (d : document) (db : database) : database := db ++ [d].

(** [db.remove(cond)]: the removed documents and the remaining table. *)
Definition remove (cond : document -> bool) (db : database)
  : list document * database :=
  (List.filter cond db, List.filter (fun d => negb (cond d)) db).

(** [db.update(fields, cond)]: the updated documents and the table, each
    matching document rewritten in place by [f]. *)
Definition update (f : document -> document) (cond : document -> bool)
    (db : database) : list document * database :=
  (List.filter cond db, List.map (fun d => if cond d then f d else d) db).

(** [db.upsert(doc, cond)]: update the matching documents with the fields of
    [doc]; insert [doc] when none matched. *)
Definition upsert (d : document) (f : document -> document)
    (cond : document -> bool) (db : database) : database :=
  match update f cond db with
  | ([], _) => insert d db
  | (_ :: _, db') => db'
  end.

(** ** The editing layer *)

Definition add_iso (g_id : Z) (db : database) : database * bool :=
  (insert (IsoDoc g_id) db, true).

Definition remove_iso (g_id : Z) (db : database) : database * bool :=
  (snd (remove (Q.iso_of g_id) db), true).

Definition add_node (g_id u_id x y : Z) (db : database) : database * bool :=
  let i := search (Q.node_of g_id u_id) db in
  if (length i =? 0)%nat then (insert (NodeDoc g_id u_id x y) db, true)
  else (db, false).

Definition add_edge (g_id u_id v_id : Z) (db : database) : database * bool :=
  if u_id =? v_id then (db, false) else
  let '(u_id, v_id) := if v_id <? u_id then (v_id, u_id) else (u_id, v_id) in
  let i := search (Q.node_among g_id u_id v_id) db in
  if negb (length i =? 2)%nat then (db, false) else
  let i := search (Q.edge_of g_id u_id v_id) db in
  if (length i =? 0)%nat then (insert (EdgeDoc g_id u_id v_id) db, true)
  else (db, false).

Definition remove_node (g_id u_id : Z) (db : database) : database * bool :=
  let '(r, db) := remove (Q.node_of g_id u_id) db in
  if (0 <? length r)%nat then (snd (remove (Q.edge_at g_id u_id) db), true)
  else (db, false).

Definition remove_edge (g_id u_id v_id : Z) (db : database) : database * bool :=
  if u_id =? v_id then (db, false) else
  let '(u_id, v_id) := if v_id <? u_id then (v_id, u_id) else (u_id, v_id) in
  let '(r, db) := remove (Q.edge_of g_id u_id v_id) db in
  (db, (0 <? length r)%nat).

Definition move_node (g_id u_id x y : Z) (db : database) : database * bool :=
  let set_xy d :=
    match d with NodeDoc g u _ _ => NodeDoc g u x y | _ => d end in
  let '(r, db) := update set_xy (Q.node_of g_id u_id) db in
  (db, (0 <? length r)%nat).

Definition save_main_name (name : option string) (db : database)
  : database * bool :=
  match name with
  | None => (db, false)
  | Some name =>
      (upsert (PropertiesDoc 0 name) (fun _ => PropertiesDoc 0 name)
         (Q.properties_of 0) db, true)
  end.

Definition remove_graph (g_id : Z) (db : database) : database * bool :=
  (snd (remove (Q.of_graph g_id) db), true).

(** *** [erase_graph]

    The only function of the module with a path that raises: [max] of an
    empty sequence is a [ValueError].  A call either returns a value or
    raises, and in both cases leaves a table behind. *)

Inductive exn : Type := ValueError.

Inductive outcome (A : Type) : Type :=
| Returns (a : A) (db : database)
| Raises (e : exn) (db : database).
Arguments Returns {A} a db.
Arguments Raises {A} e db.

(** What [erase_graph] returns: [False], or the id [g2_id]. *)
Inductive erased : Type := NotErased | ErasedTo (g2_id : Z).

(** Python's [max] over a sequence of integers. *)
Definition py_max (l : list Z) : exn + Z :=
  match l with
  | [] => inl ValueError
  | x :: l => inr (fold_left Z.max l x)
  end.

Definition erase_graph (g1_id : Z) (g2_id : option Z) (name : option string)
    (db : database) : outcome erased :=
  if bool_decide (Some g1_id = g2_id) then Returns NotErased db else
  let fresh :=
    match g2_id with
    | Some g => inr g
    | None =>
        match py_max (map doc_g_id (search Q.is_node db)) with
        | inl e => inl e
        | inr m => inr (m + 1)
        end
    end in
  match fresh with
  | inl e => Raises e db
  | inr g2_id =>
      let db := fst (remove_graph g2_id db) in
      let db :=
        fold_left (fun db x => insert (set_g_id g2_id x) db)
          (search (Q.copied_from g1_id) db) db in
      let db :=
        match name with
        | Some name =>
            upsert (PropertiesDoc g2_id name)
              (fun _ => PropertiesDoc g2_id name) (Q.properties_of g2_id) db
        | None => db
        end in
      Returns (ErasedTo g2_id) db
  end.

(** ** Graphs

    The part of [networkx.Graph] the module relies on: a simple undirected
    graph with its nodes in insertion order and each undirected edge stored
    once, as the pair it was first added with.  [add_edge] adds the
    endpoints that are not yet nodes and ignores a pair that is already an
    edge in either direction; nothing is ever rejected. *)

Module nx.

Record Graph : Type := { nodes : list Z; edges : list (Z * Z) }.

Definition empty : Graph := {| nodes := []; edges := [] |}.

(** [len(G)] *)
Definition number_of_nodes (G : Graph) : nat := length (nodes G).

Definition has_node (G : Graph) (n : Z) : bool :=
  existsb (Z.eqb n) (nodes G).

Definition joins (u v : Z) (e : Z * Z) : bool :=
  ((fst e =? u) && (snd e =? v)) || ((fst e =? v) && (snd e =? u)).

Definition has_edge (G : Graph) (u v : Z) : bool :=
  existsb (joins u v) (edges G).

Definition add_node (n : Z) (G : Graph) : Graph :=
  if has_node G n then G
  else {| nodes := nodes G ++ [n]; edges := edges G |}.

Definition add_edge (e : Z * Z) (G : Graph) : Graph :=
  let G := add_node (snd e) (add_node (fst e) G) in
  if has_edge G (fst e) (snd e) then G
  else {| nodes := nodes G; edges := edges G ++ [e] |}.

Definition add_nodes_from (ns : list Z) (G : Graph) : Graph :=
  fold_left (fun G n => add_node n G) ns G.

Definition add_edges_from (es : list (Z * Z)) (G : Graph) : Graph :=
  fold_left (fun G e => add_edge e G) es G.

(** [nx.Graph.subgraph(G, k)]: the subgraph induced by the nodes in [k]. *)
Definition subgraph (G : Graph) (k : gset Z) : Graph :=
  {| nodes := List.filter (fun n => bool_decide (n ∈ k)) (nodes G);
     edges := List.filter
                (fun e => bool_decide (fst e ∈ k) && bool_decide (snd e ∈ k))
                (edges G) |}.

End nx.

Definition _get_graph (g_id : Z) (db : database) : nx.Graph :=
  let nodes :=
    flat_map (fun res => match res with NodeDoc _ u _ _ => [u] | _ => [] end)
      (search (Q.node_in g_id) db) in
  let edges :=
    flat_map (fun res => match res with EdgeDoc _ u v => [(u, v)] | _ => [] end)
      (search (Q.edge_in g_id) db) in
  nx.add_edges_from edges (nx.add_nodes_from nodes nx.empty).

(** ** The matcher

    [isoalg.GraphMatcher(g, subgraph).subgraph_isomorphisms_iter()] is the
    one step of the query that the module does not implement itself. *)

Module isoalg.

(** A mapping as the matcher yields it: pairs (host node, pattern node),
    a dict keyed by the host nodes. *)
Definition mapping : Type := list (Z * Z).

(** [gm.keys()] *)
Definition keys (gm : mapping) : list Z := map fst gm.

Definition split_by (f : Z -> bool) (l : list Z) : list Z * list Z :=
  (List.filter f l, List.filter (fun x => negb (f x)) l).

(** Modelled from the spec: the candidate ordering of section 4.2, which
    the source leaves to the matcher of networkx.  A breadth-first
    traversal of the pattern: [queue] holds the discovered vertices,
    [rest] the undiscovered ones in ascending order; a vertex taken from
    the queue discovers its neighbours (smallest first), and when the
    queue is empty the smallest undiscovered vertex starts the next
    component. *)
Fixpoint traverse (fuel : nat) (P : nx.Graph) (queue rest : list Z)
  : list Z :=
  match fuel with
  | O => []
  | S fuel =>
      match queue, rest with
      | v :: queue, _ =>
          let '(found, rest) := split_by (nx.has_edge P v) rest in
          v :: traverse fuel P (queue ++ found) rest
      | [], v :: rest =>
          let '(found, rest) := split_by (nx.has_edge P v) rest in
          v :: traverse fuel P found rest
      | [], [] => []
      end
  end.

Definition candidate_order (P : nx.Graph) : list Z :=
  traverse (nx.number_of_nodes P) P [] (merge_sort Z.le (nx.nodes P)).

Definition used (gm : mapping) (c : Z) : bool :=
  existsb (fun cq => fst cq =? c) gm.

(** The already-mapped pattern-neighbours of [p], with their images. *)
Definition mapped_neighbours (P : nx.Graph) (gm : mapping) (p : Z)
  : mapping :=
  List.filter (fun cq => nx.has_edge P p (snd cq)) gm.

(** Modelled from the spec: step 3 of section 4.3, the candidate set. *)
Definition candidates (H P : nx.Graph) (gm : mapping) (p : Z) : list Z :=
  let unused := List.filter (fun c => negb (used gm c)) (nx.nodes H) in
  match mapped_neighbours P gm p with
  | [] => unused
  | nbrs =>
      List.filter
        (fun c => existsb (fun cq => nx.has_edge H c (fst cq)) nbrs) unused
  end.

(** Modelled from the spec: step 4 of section 4.3, the consistency check
    [hasEdgeP(p, q) == hasEdgeH(c, f(q))] for every mapped [q]. *)
Definition consistent (H P : nx.Graph) (gm : mapping) (p c : Z) : bool :=
  forallb
    (fun cq => Bool.eqb (nx.has_edge P p (snd cq)) (nx.has_edge H c (fst cq)))
    gm.

(** Modelled from the spec: steps 2 to 6 of section 4.3, the backtracking
    search along the precomputed order; the partial mapping is passed
    down, so that nothing has to be undone on return. *)
Fixpoint search (H P : nx.Graph) (order : list Z) (gm : mapping)
  : list mapping :=
  match order with
  | [] => [gm]
  | p :: order =>
      flat_map
        (fun c =>
           if consistent H P gm p c then search H P order (gm ++ [(c, p)])
           else [])
        (candidates H P gm p)
  end.

(** Modelled from the spec: the matcher of section 4.3, which stands for
    networkx's [GraphMatcher(H, P).subgraph_isomorphisms_iter()]; step 1
    is the fast reject. *)
Definition subgraph_isomorphisms_iter (H P : nx.Graph) : list mapping :=
  if (nx.number_of_nodes H <? nx.number_of_nodes P)%nat then []
  else search H P (candidate_order P) [].

End isoalg.

(** ** The query *)

(** One dict of the returned list. *)
Record induced_subgraph : Type := {
  subgraph_id : Z;
  nodes : list Z;
  edges : list (Z * Z)
}.

(** The body of the inner loop: [inds] is the set of the vertex subsets
    seen so far. *)
Definition visit (g : nx.Graph) (id : Z)
    (st : gset (gset Z) * list induced_subgraph) (gm : isoalg.mapping)
  : gset (gset Z) * list induced_subgraph :=
  let '(inds, induced_subgraphs) := st in
  let k : gset Z := list_to_set (isoalg.keys gm) in
  if bool_decide (k ∈ inds) then (inds, induced_subgraphs)
  else ({[k]} ∪ inds,
        induced_subgraphs ++
          [{| subgraph_id := id;
              nodes := elements k;
              edges := nx.edges (nx.subgraph g k) |}]).

(** [[res['g_id'] for res in db.search(q.type == 'iso')]]: the ids of I,
    in table order, an id as often as it has been added. *)
Definition isos (db : database) : list Z :=
  flat_map (fun res => match res with IsoDoc g_id => [g_id] | _ => [] end)
    (search Q.is_iso db).

Definition get_induced_subgraphs (db : database) : list induced_subgraph :=
  let g := _get_graph 0 db in
  let isos := isos db in
  let subgraphs := map (fun id => (id, _get_graph id db)) isos in
  snd (fold_left
         (fun st '(id, subgraph) =>
            fold_left (visit g id)
              (isoalg.subgraph_isomorphisms_iter g subgraph) st)
         subgraphs (∅, [])).

(** The matches in the order the two nested loops meet them: the ids of I
    in table order, and for each the mappings in the order the matcher
    yields them. *)
Definition matches (db : database) : list (Z * isoalg.mapping) :=
  flat_map
    (fun id =>
       map (pair id)
         (isoalg.subgraph_isomorphisms_iter (_get_graph 0 db)
            (_get_graph id db)))
    (isos db).

(** The loop over a sequence of matches, from a given state. *)
Definition aggregate (g : nx.Graph) (l : list (Z * isoalg.mapping))
    (st : gset (gset Z) * list induced_subgraph)
  : gset (gset Z) * list induced_subgraph :=
  fold_left (fun st m => visit g (fst m) st (snd m)) l st.

(** ** Notions the properties are stated with *)

(** The vertex subset of a record, and of a mapping. *)
Definition vertex_set (r : induced_subgraph) : gset Z := list_to_set (nodes r).

Definition key_set (gm : isoalg.mapping) : gset Z :=
  list_to_set (isoalg.keys gm).

(** The record [visit] appends for the match [gm] of the pattern [id]. *)
Definition record_of (g : nx.Graph) (id : Z) (gm : isoalg.mapping)
  : induced_subgraph :=
  {| subgraph_id := id;
     nodes := elements (key_set gm);
     edges := nx.edges (nx.subgraph g (key_set gm)) |}.

(** Two graphs are isomorphic: a bijection between their nodes under which
    two distinct nodes are adjacent exactly when their images are. *)
Definition isomorphism (G1 G2 : nx.Graph) (f : Z -> Z) : Prop :=
  (forall u, In u (nx.nodes G1) -> In (f u) (nx.nodes G2)) /\
  (forall u v, In u (nx.nodes G1) -> In v (nx.nodes G1) -> f u = f v -> u = v) /\
  (forall p, In p (nx.nodes G2) -> exists u, In u (nx.nodes G1) /\ f u = p) /\
  (forall u v, In u (nx.nodes G1) -> In v (nx.nodes G1) -> u <> v ->
     nx.has_edge G1 u v = nx.has_edge G2 (f u) (f v)).

Definition isomorphic (G1 G2 : nx.Graph) : Prop :=
  exists f, isomorphism G1 G2 f.

(** The nodes of a graph are pairwise distinct and the endpoints of its
    edges are nodes of it: what [add_node] and [add_edge] maintain. *)
Definition well_built (G : nx.Graph) : Prop :=
  List.NoDup (nx.nodes G) /\
  forall e, In e (nx.edges G) -> In (fst e) (nx.nodes G) /\ In (snd e) (nx.nodes G).

(** [S] is a vertex subset of [G]. *)
Definition subset_of (S : gset Z) (G : nx.Graph) : Prop :=
  forall u, u ∈ S -> In u (nx.nodes G).

(** What a mapping has to satisfy to be a match of the pattern [P] in the
    host [H]: it is injective, total on the pattern, into the host, and two
    distinct pattern vertices are adjacent exactly when their images are. *)
Definition induced_match (H P : nx.Graph) (gm : isoalg.mapping) : Prop :=
  List.NoDup (isoalg.keys gm) /\
  List.NoDup (map snd gm) /\
  (forall c, In c (isoalg.keys gm) -> In c (nx.nodes H)) /\
  (forall p, In p (map snd gm) <-> In p (nx.nodes P)) /\
  (forall c q c' q', In (c, q) gm -> In (c', q') gm -> q <> q' ->
     nx.has_edge P q q' = nx.has_edge H c c').

(** What the search maintains of a partial mapping. *)
Definition partial_match (H P : nx.Graph) (gm : isoalg.mapping) : Prop :=
  List.NoDup (isoalg.keys gm) /\
  (forall c, In c (isoalg.keys gm) -> In c (nx.nodes H)) /\
  (forall c q c' q', In (c, q) gm -> In (c', q') gm -> q <> q' ->
     nx.has_edge P q q' = nx.has_edge H c c').

(** The pattern vertex a mapping sends the host vertex [u] to: [gm[u]]. *)
Definition image (gm : isoalg.mapping) (u : Z) : Z :=
  match find (fun cq => fst cq =? u) gm with
  | Some cq => snd cq
  | None => 0
  end.

(** *** The stored graphs *)

Definition stored_node (db : database) (g u : Z) : Prop :=
  exists x y, In (NodeDoc g u x y) db.

(** The unordered pair [{u, v}] is an edge of [g] in the table. *)
Definition stored_edge (db : database) (g u v : Z) : Prop :=
  In (EdgeDoc g u v) db \/ In (EdgeDoc g v u) db.

Definition same_pair (u v u' v' : Z) : Prop :=
  (u = u' /\ v = v') \/ (u = v' /\ v = u').

(** The three properties of the stored edge sets. *)
Definition no_self_loop (db : database) : Prop :=
  forall g u, ~ In (EdgeDoc g u u) db.

Definition no_parallel_edges (db : database) : Prop :=
  forall (i j : nat) g u v u' v',
    nth_error db i = Some (EdgeDoc g u v) ->
    nth_error db j = Some (EdgeDoc g u' v') ->
    same_pair u v u' v' -> i = j.

Definition endpoints_stored (db : database) : Prop :=
  forall g u v,
    In (EdgeDoc g u v) db -> stored_node db g u /\ stored_node db g v.

(** What the editing functions maintain: a node is stored once, an edge is
    stored once, smaller endpoint first, between two stored nodes. *)
Record editing_invariant (db : database) : Prop := {
  inv_node_once : forall g u, (length (search (Q.node_of g u) db) <= 1)%nat;
  inv_edge_once : forall g u v, (length (search (Q.edge_of g u v) db) <= 1)%nat;
  inv_edge_sorted : forall g u v, In (EdgeDoc g u v) db -> u < v;
  inv_endpoints : endpoints_stored db
}.

(** The calls of the editing layer the invariant is about. *)
Inductive edit : Type :=
| AddNode (g_id u_id x y : Z)
| AddEdge (g_id u_id v_id : Z)
| RemoveNode (g_id u_id : Z)
| RemoveEdge (g_id u_id v_id : Z).

Definition apply_edit (db : database) (e : edit) : database :=
  match e with
  | AddNode g u x y => fst (add_node g u x y db)
  | AddEdge g u v => fst (add_edge g u v db)
  | RemoveNode g u => fst (remove_node g u db)
  | RemoveEdge g u v => fst (remove_edge g u v db)
  end.

Definition apply_edits (es : list edit) (db : database) : database :=
  fold_left apply_edit es db.

(** *** Malformed graphs

    The graph [g] as stored is malformed: an edge with an endpoint that is
    not a stored node, a pair stored twice, or a self-loop. *)
Definition malformed (db : database) (g : Z) : Prop :=
  (exists u v, In (EdgeDoc g u v) db /\
     (~ stored_node db g u \/ ~ stored_node db g v)) \/
  (exists (i j : nat) u v u' v',
     nth_error db i = Some (EdgeDoc g u v) /\
     nth_error db j = Some (EdgeDoc g u' v') /\
     same_pair u v u' v' /\ i <> j) \/
  (exists u, In (EdgeDoc g u u) db).

(** [m] is the greatest element of [l]. *)
Definition greatest (m : Z) (l : list Z) : Prop :=
  In m l /\ forall x, In x l -> x <= m.

(** *** What one document contributes to a graph and to I *)

Definition doc_nodes (g : Z) (d : document) : list Z :=
  match d with
  | NodeDoc g' u _ _ => if g' =? g then [u] else []
  | _ => []
  end.

Definition doc_edges (g : Z) (d : document) : list (Z * Z) :=
  match d with
  | EdgeDoc g' u v => if g' =? g then [(u, v)] else []
  | _ => []
  end.

Definition doc_isos (d : document) : list Z :=
  match d with IsoDoc g => [g] | _ => [] end.

(** The graph a list of node ids and a list of edges build. *)
Definition build (ns : list Z) (es : list (Z * Z)) : nx.Graph :=
  nx.add_edges_from es (nx.add_nodes_from ns nx.empty).

(** [u] is not an endpoint of a stored edge of [g]. *)
Definition isolated (db : database) (g u : Z) : Prop :=
  forall d, In d db -> Q.edge_at g u d = false.

(** ** The views *)

(** [q.type == 'properties'] *)
Definition is_properties (d : document) : bool :=
  match d with PropertiesDoc _ _ => true | _ => false end.

(** [res['name']] *)
Definition doc_name (d : document) : string :=
  match d with PropertiesDoc _ n => n | _ => EmptyString end.

(** The dict [get_graph_dict] returns. *)
Module Dict.
Record t : Type := {
  nodes : list (Z * Z * Z);
  edges : list (Z * Z);
  name : string;
  iso : bool
}.
End Dict.

Definition get_graph_dict (g_id : Z) (db : database) : Dict.t :=
  let nodes :=
    flat_map
      (fun res => match res with NodeDoc _ u x y => [(u, x, y)] | _ => [] end)
      (search (Q.node_in g_id) db) in
  let edges :=
    flat_map (fun res => match res with EdgeDoc _ u v => [(u, v)] | _ => [] end)
      (search (Q.edge_in g_id) db) in
  let name :=
    match search (Q.properties_of g_id) db with
    | res :: _ => doc_name res
    | [] => EmptyString
    end in
  let iso := negb (length (search (Q.iso_of g_id) db) =? 0)%nat in
  {| Dict.nodes := nodes; Dict.edges := edges; Dict.name := name;
     Dict.iso := iso |}.

(** One dict of the list [get_graph_infos] returns. *)
Module Info.
Record t : Type := { graph_id : Z; name : string; iso : bool }.
End Info.

(** [l.sort(key=...)] on string keys: a stable sort, the strings compared
    as Python compares them, character by character. *)
Fixpoint sort_insert {A : Type} (key : A -> string) (x : A) (l : list A)
  : list A :=
  match l with
  | [] => [x]
  | y :: l' =>
      if String.leb (key x) (key y) then x :: l else y :: sort_insert key x l'
  end.

Definition py_sort {A : Type} (key : A -> string) (l : list A) : list A :=
  fold_right (sort_insert key) [] l.

Definition get_graph_infos (db : database) : list Info.t :=
  let isos := isos db in
  let names :=
    map
      (fun res =>
         {| Info.graph_id := doc_g_id res;
            Info.name := doc_name res;
            Info.iso := existsb (Z.eqb (doc_g_id res)) isos |})
      (search is_properties db) in
  py_sort Info.name names.

(** ** The routes

    The routes of [src/controller.py] that answer with a string; each
    returns the answer and the table it leaves.  The arguments of the
    request are parameters: [graph_id] is [None] when the URL gives no id,
    [name] is [request.args.get('name', None)]. *)

Module controller.

(** [str(x)] for a bool, an int, and for what [erase_graph] returns. *)
Definition str_bool (b : bool) : string := if b then "True" else "False".

Definition str_int (z : Z) : string := pretty z.

Definition str_erased (e : erased) : string :=
  match e with
  | NotErased => str_bool false
  | ErasedTo g => str_int g
  end.

(** [s.lower()], on the ASCII strings the routes build. *)
Definition lower_ascii (c : ascii) : ascii :=
  let n := nat_of_ascii c in
  if (65 <=? n)%nat && (n <=? 90)%nat then ascii_of_nat (n + 32) else c.

Fixpoint lower (s : string) : string :=
  match s with
  | EmptyString => EmptyString
  | String c s => String (lower_ascii c) (lower s)
  end.

Definition erase_main_graph (graph_id : Z) (name : option string)
    (db : database) : outcome string :=
  match erase_graph graph_id (Some 0) name db with
  | Returns erased db => Returns (lower (str_erased erased)) db
  | Raises e db => Raises e db
  end.

Definition save_main_graph (graph_id : option Z) (name : option string)
    (db : database) : outcome string :=
  match erase_graph 0 graph_id name db with
  | Returns g_id db => Returns (str_erased g_id) db
  | Raises e db => Raises e db
  end.

Definition save_main_name (name : option string) (db : database)
  : database * string :=
  let '(db, b) := save_main_name name db in (db, lower (str_bool b)).

Definition delete_graph (graph_id : Z) (db : database) : database * string :=
  let '(db, b) := remove_graph graph_id db in (db, lower (str_bool b)).

Definition remove_node (node_id : Z) (db : database) : database * string :=
  let '(db, b) := remove_node 0 node_id db in (db, lower (str_bool b)).

Definition add_edge (node1_id node2_id : Z) (db : database)
  : database * string :=
  let '(db, added) := add_edge 0 node1_id node2_id db in
  (db, lower (str_bool added)).

Definition remove_edge (node1_id node2_id : Z) (db : database)
  : database * string :=
  let '(db, b) := remove_edge 0 node1_id node2_id db in
  (db, lower (str_bool b)).

Definition add_iso (graph_id : Z) (db : database) : database * string :=
  let '(db, b) := add_iso graph_id db in (db, lower (str_bool b)).

Definition remove_iso (graph_id : Z) (db : database) : database * string :=
  let '(db, b) := remove_iso graph_id db in (db, lower (str_bool b)).

End controller.

(** *** Every call that writes to the table *)

Inductive call : Type :=
| CallAddIso (g_id : Z)
| CallRemoveIso (g_id : Z)
| CallAddNode (g_id u_id x y : Z)
| CallAddEdge (g_id u_id v_id : Z)
| CallRemoveNode (g_id u_id : Z)
| CallRemoveEdge (g_id u_id v_id : Z)
| CallMoveNode (g_id u_id x y : Z)
| CallSaveMainName (name : option string)
| CallRemoveGraph (g_id : Z)
| CallEraseGraph (g1_id : Z) (g2_id : option Z) (name : option string).

(** The table a call leaves, also when it raises. *)
Definition apply_call (db : database) (c : call) : database :=
  match c with
  | CallAddIso g => fst (add_iso g db)
  | CallRemoveIso g => fst (remove_iso g db)
  | CallAddNode g u x y => fst (add_node g u x y db)
  | CallAddEdge g u v => fst (add_edge g u v db)
  | CallRemoveNode g u => fst (remove_node g u db)
  | CallRemoveEdge g u v => fst (remove_edge g u v db)
  | CallMoveNode g u x y => fst (move_node g u x y db)
  | CallSaveMainName n => fst (save_main_name n db)
  | CallRemoveGraph g => fst (remove_graph g db)
  | CallEraseGraph g1 g2 n =>
      match erase_graph g1 g2 n db with
      | Returns _ db' => db'
      | Raises _ db' => db'
      end
  end.

Definition apply_calls (cs : list call) (db : database) : database :=
  fold_left apply_call cs db.

(** What one document contributes to the 'nodes' of [get_graph_dict]. *)
Definition doc_placed (g : Z) (d : document) : list (Z * Z * Z) :=
  match d with
  | NodeDoc g' u x y => if g' =? g then [(u, x, y)] else []
  | _ => []
  end.

(** The name [get_graph_dict] reads off the 'properties' documents found. *)
Definition first_name (l : list document) : string :=
  match l with res :: _ => doc_name res | [] => EmptyString end.

(** [db.upsert] of the 'properties' document of [g] with the name [n]. *)
Definition set_name (g : Z) (n : string) (db : database) : database :=
  upsert (PropertiesDoc g n) (fun _ => PropertiesDoc g n) (Q.properties_of g) db.

(** The entry of [u] moved to [(x, y)]. *)
Definition placed_at (u x y : Z) (p : Z * Z * Z) : Z * Z * Z :=
  if fst (fst p) =? u then (u, x, y) else p.

(** What one document contributes to the names of a graph. *)
Definition doc_names (g : Z) (d : document) : list string :=
  match d with
  | PropertiesDoc g' n => if g' =? g then [n] else []
  | _ => []
  end.

(** The table [erase_graph] leaves before it sets the name: the documents
    of [g] removed, then the documents of [g1_id] that are not 'iso'
    inserted again under the id [g]. *)
Definition copied (g1_id g : Z) (db : database) : database :=
  let db1 := snd (remove (Q.of_graph g) db) in
  db1 ++ map (set_g_id g) (search (Q.copied_from g1_id) db1).

Definition named (name : option string) (g : Z) (db : database) : database :=
  match name with
  | Some n => set_name g n db
  | None => db
  end.

(** What [get_graph_dict] shows of a graph that has no document. *)
Definition no_graph : Dict.t :=
  {| Dict.nodes := []; Dict.edges := []; Dict.name := EmptyString;
     Dict.iso := false |}.

(** [a] comes before [b], or with it, in the order of their keys. *)
Definition by_key {A : Type} (key : A -> string) (a b : A) : Prop :=
  String.leb (key a) (key b) = true.

(** The entry of [get_graph_infos] for the graph [g] named [n]. *)
Definition info_of (db : database) (g : Z) (n : string) : Info.t :=
  {| Info.graph_id := g; Info.name := n;
     Info.iso := existsb (Z.eqb g) (isos db) |}.

(** ** Example tables *)

(** The host is the path 1 - 2 - 3; graph 1 is a single edge, graph 2 two
    vertices without an edge; both are in I. *)
Definition path_table : database :=
  [NodeDoc 0 1 0 0; NodeDoc 0 2 0 0; NodeDoc 0 3 0 0;
   EdgeDoc 0 1 2; EdgeDoc 0 2 3;
   NodeDoc 1 7 0 0; NodeDoc 1 8 0 0; EdgeDoc 1 7 8; IsoDoc 1;
   NodeDoc 2 7 0 0; NodeDoc 2 8 0 0; IsoDoc 2].


(** No node at all: the host is empty, and so is graph 1, which is in I. *)
Definition empty_pattern_table : database := [IsoDoc 1].

(** * Properties *)

(** ** The table primitives *)

Section Table.

Implicit Types (db : database) (d : document) (cond : document -> bool).

Lemma in_search cond db d : In d (search cond db) <-> In d db /\ cond d = true.
Proof. unfold search. apply filter_In. Qed.

Lemma in_insert d d' db : In d (insert d' db) <-> In d db \/ d = d'.
Proof.
  unfold insert. rewrite in_app_iff. simpl. intuition congruence.
Qed.

Lemma search_insert cond d db :
  search cond (insert d db) = search cond db ++ (if cond d then [d] else []).
Proof. unfold search, insert. rewrite List.filter_app. reflexivity. Qed.

Lemma in_remove cond db d :
  In d (snd (remove cond db)) <-> In d db /\ cond d = false.
Proof.
  unfold remove. simpl. rewrite filter_In.
  destruct (cond d); simpl; intuition congruence.
Qed.

Lemma search_nil cond db :
  search cond db = [] <-> forall d, In d db -> cond d = false.
Proof.
  unfold search. induction db as [|a db IH]; simpl.
  - intuition.
  - destruct (cond a) eqn:E.
    + split; [discriminate|]. intros H. specialize (H a (or_introl eq_refl)).
      congruence.
    + rewrite IH. split; intros H d; [intros [<-|]|]; auto.
Qed.

Lemma inserts_app (f : document -> document) (l : list document) db :
  fold_left (fun db x => insert (f x) db) l db = db ++ map f l.
Proof.
  revert db. induction l as [|a l IH]; intros db; simpl.
  - now rewrite app_nil_r.
  - rewrite IH. unfold insert. now rewrite <- app_assoc.
Qed.

Lemma in_upsert d f cond db d' :
  In d' (upsert d f cond db) ->
  (In d' db /\ cond d' = false) \/ d' = d \/
  (exists d0, In d0 db /\ cond d0 = true /\ d' = f d0).
Proof.
  unfold upsert, update. destruct (List.filter cond db) as [|hd tl] eqn:E.
  - intros H. apply in_insert in H. destruct H as [H| ->]; [|auto].
    left. split; [assumption|]. apply (proj1 (search_nil cond db) E _ H).
  - rewrite in_map_iff. intros (d0 & <- & Hin).
    destruct (cond d0) eqn:C; [right; right; eauto | left; auto].
Qed.

Lemma upsert_keeps d f cond db d' :
  cond d' = false -> In d' db -> In d' (upsert d f cond db).
Proof.
  intros C Hin. unfold upsert, update. destruct (List.filter cond db).
  - apply in_insert; auto.
  - apply in_map_iff. exists d'. now rewrite C.
Qed.

End Table.

(** ** [erase_graph] *)

Lemma fold_max_greatest (l : list Z) (x : Z) :
  greatest (fold_left Z.max l x) (x :: l).
Proof.
  revert x. induction l as [|a l IH]; intros x; simpl.
  - split; [now left|]. intros y [<-|[]]. lia.
  - destruct (IH (Z.max x a)) as [Hin Hle]. split.
    + destruct Hin as [Hin|Hin]; [|right; now right].
      rewrite <- Hin.
      destruct (Z.max_spec x a) as [[_ ->]|[_ ->]]; simpl; auto.
    + specialize (Hle (Z.max x a) (or_introl eq_refl)) as Hm.
      intros y [E|[E|Hy]]; [lia|lia|].
      apply Hle. now right.
Qed.

Lemma py_max_greatest (l : list Z) (m : Z) :
  py_max l = inr m -> greatest m l.
Proof.
  destruct l as [|x l]; simpl; [discriminate|].
  intros [= <-]. apply fold_max_greatest.
Qed.

(** C9: called without a target id, [erase_graph] raises [ValueError] when
    the table holds no node document at all, and otherwise copies to one
    plus the greatest [g_id] of the node documents; it never returns
    [False] on that path. *)
Theorem erase_graph_fresh_id (g1_id : Z) (name : option string) (db : database) :
  ((forall d, In d db -> Q.is_node d = false) ->
   erase_graph g1_id None name db = Raises ValueError db) /\
  ((exists d, In d db /\ Q.is_node d = true) ->
   exists m db',
     greatest m (map doc_g_id (search Q.is_node db)) /\
     erase_graph g1_id None name db = Returns (ErasedTo (m + 1)) db').
Proof.
  unfold erase_graph.
  rewrite bool_decide_eq_false_2 by discriminate. split.
  - intros H. apply search_nil in H. now rewrite H.
  - intros (d & Hin & Hd).
    destruct (py_max (map doc_g_id (search Q.is_node db))) as [e|m] eqn:E.
    + destruct (search Q.is_node db) eqn:S; [|discriminate].
      exfalso. apply (proj1 (search_nil _ _) S) in Hin. congruence.
    + eexists m, _. split; [now apply py_max_greatest|reflexivity].
Qed.

Lemma erase_graph_fresh_id_witness :
  erase_graph 0 None None [IsoDoc 3; PropertiesDoc 0 "G"]
  = Raises ValueError [IsoDoc 3; PropertiesDoc 0 "G"].
Proof.
  apply (proj1 (erase_graph_fresh_id 0 None [IsoDoc 3; PropertiesDoc 0 "G"])).
  intros d [<-|[<-|[]]]; reflexivity.
Defined.

(** C10: copying onto [g2_id] first removes every document of [g2_id], its
    'iso' document included, and copies only the documents of [g1_id] that
    are not 'iso': afterwards [g2_id] is not in I, whatever was in I
    before, and the documents of the other graphs are untouched. *)
Theorem erase_graph_target_not_iso
    (g1_id g2_id : Z) (name : option string) (db : database) :
  g1_id <> g2_id ->
  exists db',
    erase_graph g1_id (Some g2_id) name db = Returns (ErasedTo g2_id) db' /\
    ~ In (IsoDoc g2_id) db' /\
    ~ In g2_id (isos db') /\
    (forall d, In d db' -> doc_g_id d = g2_id ->
       (exists d0, In d0 db /\ doc_g_id d0 = g1_id /\ Q.is_iso d0 = false /\
                   d = set_g_id g2_id d0) \/
       (exists n, name = Some n /\ d = PropertiesDoc g2_id n)) /\
    (forall d, doc_g_id d <> g2_id -> In d db' <-> In d db).
Proof.
  intros Hne. unfold erase_graph.
  rewrite bool_decide_eq_false_2 by congruence.
  eexists. split; [reflexivity|].
  rewrite inserts_app. unfold remove_graph. cbn [fst].
  set (db1 := snd (remove (Q.of_graph g2_id) db)).
  set (db2 := db1 ++ map (set_g_id g2_id) (search (Q.copied_from g1_id) db1)).
  assert (Hdb2 : forall d, In d db2 ->
            (In d db /\ doc_g_id d <> g2_id) \/
            (exists d0, In d0 db /\ doc_g_id d0 = g1_id /\ Q.is_iso d0 = false /\
                        d = set_g_id g2_id d0)).
  { intros d Hd. unfold db2 in Hd. apply in_app_iff in Hd. destruct Hd as [Hd|Hd].
    - apply in_remove in Hd. destruct Hd as [Hd Hq]. left. split; [assumption|].
      unfold Q.of_graph in Hq. lia.
    - apply in_map_iff in Hd. destruct Hd as (d0 & <- & Hd0).
      apply in_search in Hd0. destruct Hd0 as [Hd0 Hq].
      apply in_remove in Hd0. destruct Hd0 as [Hd0 _].
      unfold Q.copied_from in Hq. apply andb_prop in Hq. destruct Hq as [Hg Hi].
      right. exists d0. repeat split; try assumption; [lia|].
      now destruct (Q.is_iso d0). }
  assert (Hkeep : forall d, doc_g_id d <> g2_id -> In d db2 <-> In d db).
  { intros d Hd. split.
    - intros H. destruct (Hdb2 d H) as [[H' _]|(d0 & _ & _ & _ & ->)]; [assumption|].
      exfalso. apply Hd. now destruct d0.
    - intros H. unfold db2. apply in_app_iff. left. apply in_remove.
      split; [assumption|]. unfold Q.of_graph. lia. }
  set (db3 := match name with
              | Some n =>
                  upsert (PropertiesDoc g2_id n)
                    (fun _ => PropertiesDoc g2_id n) (Q.properties_of g2_id) db2
              | None => db2
              end).
  assert (Hdb3 : forall d, In d db3 -> doc_g_id d = g2_id ->
            (exists d0, In d0 db /\ doc_g_id d0 = g1_id /\ Q.is_iso d0 = false /\
                        d = set_g_id g2_id d0) \/
            (exists n, name = Some n /\ d = PropertiesDoc g2_id n)).
  { intros d Hd Hg. unfold db3 in Hd. destruct name as [n|].
    - apply in_upsert in Hd. destruct Hd as [[Hd _]|[->|(d0 & _ & _ & ->)]].
      + destruct (Hdb2 d Hd) as [[_ H']|H']; [congruence|now left].
      + right. eauto.
      + right. eauto.
    - destruct (Hdb2 d Hd) as [[_ H']|H']; [congruence|now left]. }
  assert (Hiso : ~ In (IsoDoc g2_id) db3).
  { intros H. destruct (Hdb3 _ H eq_refl) as [(d0 & _ & _ & Hi & E)|(n & _ & E)].
    - destruct d0; simpl in *; congruence.
    - discriminate. }
  split; [exact Hiso|]. split.
  { intros H. unfold isos in H. apply in_flat_map in H.
    destruct H as (d & Hd & Hin). apply in_search in Hd.
    destruct d; simpl in Hin; try contradiction.
    destruct Hin as [->|[]]. now apply Hiso. }
  split; [exact Hdb3|].
  intros d Hd. rewrite <- (Hkeep d Hd). unfold db3. destruct name as [n|]; [|tauto].
  assert (Hc : Q.properties_of g2_id d = false).
  { destruct d; simpl in *; try reflexivity. lia. }
  split.
  - intros H. apply in_upsert in H. destruct H as [[H _]|[->|(d0 & _ & _ & ->)]].
    + assumption.
    + now contradiction Hd.
    + now contradiction Hd.
  - now apply upsert_keeps.
Qed.

Lemma erase_graph_target_not_iso_witness :
  exists db',
    erase_graph 0 (Some 1) None
      [NodeDoc 0 5 0 0; IsoDoc 0; NodeDoc 1 7 0 0; IsoDoc 1]
    = Returns (ErasedTo 1) db' /\ ~ In (IsoDoc 1) db'.
Proof.
  destruct (erase_graph_target_not_iso 0 1 None
              [NodeDoc 0 5 0 0; IsoDoc 0; NodeDoc 1 7 0 0; IsoDoc 1])
    as (db' & H1 & H2 & _); [lia|].
  exists db'. split; assumption.
Defined.

(** ** The editing layer keeps the stored graphs simple *)

Ltac zbool :=
  repeat match goal with
    | H : _ && _ = true |- _ => apply andb_prop in H; destruct H
    | H : _ || _ = true |- _ => apply orb_prop in H; destruct H
    | H : (_ =? _) = true |- _ => apply Z.eqb_eq in H
    | H : (_ =? _) = false |- _ => apply Z.eqb_neq in H
    | H : (_ <? _) = true |- _ => apply Z.ltb_lt in H
    | H : (_ <? _) = false |- _ => apply Z.ltb_ge in H
    | H : negb _ = true |- _ => apply negb_true_iff in H
    | H : negb _ = false |- _ => apply negb_false_iff in H
    end.

Section Counting.

Context {A : Type}.
Implicit Types (c p : A -> bool) (l : list A).

Lemma count_filter_le c p l :
  (length (List.filter c (List.filter p l)) <= length (List.filter c l))%nat.
Proof.
  induction l as [|a l IH]; simpl; [lia|].
  destruct (p a), (c a) eqn:C; simpl; rewrite ?C; simpl; lia.
Qed.

Lemma count_zero c l :
  length (List.filter c l) = 0%nat <-> forall a, In a l -> c a = false.
Proof.
  induction l as [|a l IH]; simpl; [intuition|].
  destruct (c a) eqn:C; simpl.
  - split; [discriminate|]. intros H. specialize (H a (or_introl eq_refl)).
    congruence.
  - rewrite IH. split; intros H b; [intros [<-|]|]; auto.
Qed.

Lemma count_pos c l a :
  In a l -> c a = true -> (0 < length (List.filter c l))%nat.
Proof.
  intros Hin Hc. destruct (length (List.filter c l)) eqn:E; [|lia].
  pose proof (proj1 (count_zero c l) E a Hin). congruence.
Qed.

Lemma count_pos_inv c l :
  (0 < length (List.filter c l))%nat -> exists a, In a l /\ c a = true.
Proof.
  destruct (List.filter c l) as [|a f] eqn:E; simpl; [lia|]. intros _.
  assert (H : In a (List.filter c l)) by (rewrite E; now left).
  apply filter_In in H. eauto.
Qed.

Lemma count_once c l (i j : nat) a b :
  (length (List.filter c l) <= 1)%nat ->
  nth_error l i = Some a -> nth_error l j = Some b ->
  c a = true -> c b = true -> i = j.
Proof.
  revert i j. induction l as [|x l IH]; intros i j Hc Hi Hj Ca Cb.
  - destruct i; discriminate.
  - simpl in Hc. destruct i as [|i], j as [|j]; simpl in Hi, Hj.
    + reflexivity.
    + injection Hi as ->. rewrite Ca in Hc. simpl in Hc.
      apply nth_error_In in Hj. pose proof (count_pos c l b Hj Cb). lia.
    + injection Hj as ->. rewrite Cb in Hc. simpl in Hc.
      apply nth_error_In in Hi. pose proof (count_pos c l a Hi Ca). lia.
    + f_equal. apply IH; try assumption.
      destruct (c x); simpl in Hc; lia.
Qed.

End Counting.

Lemma node_among_count (g u v : Z) (db : database) :
  u <> v ->
  length (search (Q.node_among g u v) db)
  = (length (search (Q.node_of g u) db) + length (search (Q.node_of g v) db))%nat.
Proof.
  intros Hne. unfold search. induction db as [|d db IH]; simpl; [reflexivity|].
  destruct d as [g' u' x y| | |]; simpl; try exact IH.
  destruct (g' =? g); simpl; [|exact IH].
  destruct (u' =? u) eqn:E1, (u' =? v) eqn:E2; simpl; zbool; try lia.
Qed.

Lemma stored_node_count (db : database) (g u : Z) :
  stored_node db g u <-> (0 < length (search (Q.node_of g u) db))%nat.
Proof.
  split.
  - intros (x & y & Hin). apply (count_pos _ _ _ Hin). simpl.
    now rewrite !Z.eqb_refl.
  - intros H. apply count_pos_inv in H. destruct H as (d & Hin & Hd).
    destruct d; simpl in Hd; try discriminate. zbool. subst. now exists x, y.
Qed.

Lemma edge_count (db : database) (g u v : Z) :
  In (EdgeDoc g u v) db <-> (0 < length (search (Q.edge_of g u v) db))%nat.
Proof.
  split.
  - intros Hin. apply (count_pos _ _ _ Hin). simpl. now rewrite !Z.eqb_refl.
  - intros H. apply count_pos_inv in H. destruct H as (d & Hin & Hd).
    destruct d; simpl in Hd; try discriminate. zbool. now subst.
Qed.

Lemma stored_node_insert (db : database) (d : document) (g u : Z) :
  stored_node db g u -> stored_node (insert d db) g u.
Proof. intros (x & y & H). exists x, y. apply in_insert. now left. Qed.

Lemma empty_invariant : editing_invariant [].
Proof. split; simpl; try (intros; lia); intros g u v []. Qed.

Lemma add_node_invariant (g u x y : Z) (db : database) :
  editing_invariant db -> editing_invariant (fst (add_node g u x y db)).
Proof.
  intros [N E S P]. unfold add_node.
  destruct (length (search (Q.node_of g u) db) =? 0)%nat eqn:C; [|now split].
  apply Nat.eqb_eq in C. cbn [fst]. split.
  - intros g' u'. rewrite search_insert, length_app. simpl.
    destruct (g =? g') eqn:E1, (u =? u') eqn:E2; simpl;
      zbool; subst; specialize (N g' u'); lia.
  - intros g' u' v'. rewrite search_insert, length_app. simpl.
    specialize (E g' u' v'). lia.
  - intros g' u' v' H. apply in_insert in H. destruct H as [H|H]; [|discriminate].
    eauto.
  - intros g' u' v' H. apply in_insert in H. destruct H as [H|H]; [|discriminate].
    destruct (P _ _ _ H). split; now apply stored_node_insert.
Qed.

Lemma add_edge_invariant (g u v : Z) (db : database) :
  editing_invariant db -> editing_invariant (fst (add_edge g u v db)).
Proof.
  intros Inv. unfold add_edge.
  destruct (u =? v) eqn:Huv; [assumption|]. zbool.
  set (uv := if v <? u then (v, u) else (u, v)).
  assert (Hlt : fst uv < snd uv).
  { unfold uv. destruct (v <? u) eqn:L; simpl; zbool; lia. }
  destruct uv as [a b]. simpl in Hlt.
  destruct (negb (length (search (Q.node_among g a b) db) =? 2)%nat) eqn:C2;
    [assumption|].
  destruct (length (search (Q.edge_of g a b) db) =? 0)%nat eqn:C0; [|assumption].
  zbool. apply Nat.eqb_eq in C2, C0. cbn [fst].
  destruct Inv as [N E S P].
  rewrite node_among_count in C2 by lia.
  pose proof (N g a) as Na. pose proof (N g b) as Nb.
  assert (Ha : stored_node db g a) by (apply stored_node_count; lia).
  assert (Hb : stored_node db g b) by (apply stored_node_count; lia).
  split.
  - intros g' u'. rewrite search_insert, length_app. simpl.
    specialize (N g' u'). lia.
  - intros g' u' v'. rewrite search_insert, length_app. simpl.
    destruct (g =? g') eqn:E1, (a =? u') eqn:E2, (b =? v') eqn:E3; simpl;
      zbool; subst; specialize (E g' u' v'); lia.
  - intros g' u' v' H. apply in_insert in H. destruct H as [H|H]; [eauto|].
    injection H as -> -> ->. assumption.
  - intros g' u' v' H. apply in_insert in H. destruct H as [H|H].
    + destruct (P _ _ _ H). split; now apply stored_node_insert.
    + injection H as -> -> ->. split; now apply stored_node_insert.
Qed.

Lemma remove_edges_invariant (cond : document -> bool) (db : database) :
  (forall d, cond d = true -> Q.is_node d = false) ->
  editing_invariant db -> editing_invariant (snd (remove cond db)).
Proof.
  intros Hc [N E S P]. unfold remove. cbn [snd]. split.
  - intros g u. etransitivity; [apply count_filter_le|apply N].
  - intros g u v. etransitivity; [apply count_filter_le|apply E].
  - intros g u v H. apply filter_In in H. destruct H as [H _]. eauto.
  - intros g u v H. apply filter_In in H. destruct H as [H _].
    destruct (P _ _ _ H) as [(x & y & H1) (x' & y' & H2)].
    split; [exists x, y|exists x', y']; apply filter_In; split; try assumption.
    + destruct (cond (NodeDoc g u x y)) eqn:C; [|reflexivity].
      now apply Hc in C.
    + destruct (cond (NodeDoc g v x' y')) eqn:C; [|reflexivity].
      now apply Hc in C.
Qed.

Lemma remove_node_invariant (g u : Z) (db : database) :
  editing_invariant db -> editing_invariant (fst (remove_node g u db)).
Proof.
  intros [N E S P]. unfold remove_node, remove.
  destruct (0 <? length (List.filter (Q.node_of g u) db))%nat eqn:C; cbn [fst snd].
  - split.
    + intros g' u'. etransitivity; [apply count_filter_le|].
      etransitivity; [apply count_filter_le|apply N].
    + intros g' u' v'. etransitivity; [apply count_filter_le|].
      etransitivity; [apply count_filter_le|apply E].
    + intros g' u' v' H. apply filter_In in H. destruct H as [H _].
      apply filter_In in H. destruct H as [H _]. eauto.
    + intros g' u' v' H. apply filter_In in H. destruct H as [H Hat].
      apply filter_In in H. destruct H as [H _].
      destruct (P _ _ _ H) as [(x & y & H1) (x' & y' & H2)]. simpl in Hat.
      split; [exists x, y|exists x', y']; apply filter_In; (split; [|reflexivity]);
        apply filter_In; (split; [assumption|]); simpl;
        destruct (g' =? g), (u' =? u), (v' =? u); simpl in *;
        reflexivity || discriminate.
  - apply Nat.ltb_ge in C.
    assert (C0 : length (List.filter (Q.node_of g u) db) = 0%nat) by lia.
    rewrite count_zero in C0. split.
    + intros g' u'. etransitivity; [apply count_filter_le|apply N].
    + intros g' u' v'. etransitivity; [apply count_filter_le|apply E].
    + intros g' u' v' H. apply filter_In in H. destruct H as [H _]. eauto.
    + intros g' u' v' H. apply filter_In in H. destruct H as [H _].
      destruct (P _ _ _ H) as [(x & y & H1) (x' & y' & H2)].
      split; [exists x, y|exists x', y']; apply filter_In; (split; [assumption|]).
      * now rewrite (C0 _ H1).
      * now rewrite (C0 _ H2).
Qed.

Lemma remove_edge_invariant (g u v : Z) (db : database) :
  editing_invariant db -> editing_invariant (fst (remove_edge g u v db)).
Proof.
  intros Inv. unfold remove_edge. destruct (u =? v); [assumption|].
  destruct (if v <? u then (v, u) else (u, v)) as [a b].
  change (editing_invariant (snd (remove (Q.edge_of g a b) db))).
  apply remove_edges_invariant; [|assumption].
  intros d Hd. now destruct d.
Qed.

Lemma apply_edits_invariant (es : list edit) (db : database) :
  editing_invariant db -> editing_invariant (apply_edits es db).
Proof.
  unfold apply_edits. revert db.
  induction es as [|e es IH]; intros db Inv; simpl; [assumption|].
  apply IH. destruct e; simpl.
  - now apply add_node_invariant.
  - now apply add_edge_invariant.
  - now apply remove_node_invariant.
  - now apply remove_edge_invariant.
Qed.

Lemma invariant_simple (db : database) :
  editing_invariant db ->
  no_self_loop db /\ no_parallel_edges db /\ endpoints_stored db.
Proof.
  intros [N E S P]. split; [|split; [|assumption]].
  - intros g u H. apply S in H. lia.
  - intros i j g u v u' v' Hi Hj Hp.
    pose proof (S _ _ _ (nth_error_In _ _ Hi)).
    pose proof (S _ _ _ (nth_error_In _ _ Hj)).
    assert (u = u' /\ v = v') as [<- <-] by (destruct Hp; lia).
    apply (count_once (Q.edge_of g u v) db i j _ _ (E g u v) Hi Hj);
      simpl; now rewrite !Z.eqb_refl.
Qed.

Lemma add_edge_refused (db : database) (g u v : Z) :
  editing_invariant db ->
  u = v \/ ~ stored_node db g u \/ ~ stored_node db g v \/ stored_edge db g u v ->
  add_edge g u v db = (db, false).
Proof.
  intros [N E S P] H. unfold add_edge.
  destruct (u =? v) eqn:Huv; [reflexivity|]. zbool.
  assert (Hab : exists a b,
             (if v <? u then (v, u) else (u, v)) = (a, b) /\ a < b /\
             same_pair u v a b).
  { destruct (v <? u) eqn:L; zbool; eexists _, _;
      (split; [reflexivity|]); (split; [lia|]); [right|left]; now split. }
  destruct Hab as (a & b & -> & Hlt & Hp).
  destruct (negb (length (search (Q.node_among g a b) db) =? 2)%nat) eqn:C2;
    [reflexivity|].
  zbool. apply Nat.eqb_eq in C2. rewrite node_among_count in C2 by lia.
  pose proof (N g a). pose proof (N g b).
  assert (Ha : stored_node db g a) by (apply stored_node_count; lia).
  assert (Hb : stored_node db g b) by (apply stored_node_count; lia).
  destruct H as [H|[H|[H|H]]].
  - contradiction.
  - exfalso. apply H. destruct Hp as [[-> _]|[-> _]]; assumption.
  - exfalso. apply H. destruct Hp as [[_ ->]|[_ ->]]; assumption.
  - assert (Hin : In (EdgeDoc g a b) db).
    { destruct H as [H|H]; pose proof (S _ _ _ H);
        destruct Hp as [[? ?]|[? ?]]; subst; solve [assumption|lia]. }
    apply edge_count in Hin.
    destruct (length (search (Q.edge_of g a b) db) =? 0)%nat eqn:C0;
      [|reflexivity].
    apply Nat.eqb_eq in C0. lia.
Qed.

(** C8: from a table in which every node and every edge is stored once,
    every edge smaller endpoint first and between stored nodes (the empty
    table is one), any sequence of [add_node], [add_edge], [remove_node]
    and [remove_edge] leads to a table with no self-loop, no two edges on
    the same unordered pair and no edge with an endpoint that is not a
    stored node of its graph; and there [add_edge] returns [False] and
    leaves the table as it is when the endpoints are equal, when one of
    them is not a node of the graph, or when the edge is already stored. *)
Theorem editing_layer_keeps_graphs_simple (db0 : database) (es : list edit) :
  editing_invariant db0 ->
  let db := apply_edits es db0 in
  no_self_loop db /\ no_parallel_edges db /\ endpoints_stored db /\
  (forall g u v,
     u = v \/ ~ stored_node db g u \/ ~ stored_node db g v \/
     stored_edge db g u v ->
     add_edge g u v db = (db, false)).
Proof.
  intros Inv db.
  assert (Inv' : editing_invariant db) by now apply apply_edits_invariant.
  destruct (invariant_simple db Inv') as (H1 & H2 & H3).
  split; [|split; [|split]]; try assumption.
  intros g u v H. now apply add_edge_refused.
Qed.

Lemma editing_layer_keeps_graphs_simple_witness :
  let db := apply_edits
              [AddNode 0 1 10 10; AddNode 0 2 20 20; AddEdge 0 2 1;
               AddEdge 0 1 2; AddEdge 0 1 3; AddNode 0 3 5 5; AddEdge 0 3 2;
               RemoveNode 0 2; RemoveEdge 0 1 3] [] in
  db = [NodeDoc 0 1 10 10; NodeDoc 0 3 5 5] /\
  no_self_loop db /\ no_parallel_edges db /\ endpoints_stored db /\
  add_edge 0 1 2 db = (db, false).
Proof.
  split; [reflexivity|].
  destruct (editing_layer_keeps_graphs_simple []
              [AddNode 0 1 10 10; AddNode 0 2 20 20; AddEdge 0 2 1;
               AddEdge 0 1 2; AddEdge 0 1 3; AddNode 0 3 5 5; AddEdge 0 3 2;
               RemoveNode 0 2; RemoveEdge 0 1 3] empty_invariant)
    as (H1 & H2 & H3 & H4).
  split; [|split; [|split]]; try assumption.
  apply H4. right. right. left. intros (x & y & H).
  vm_compute in H. intuition discriminate.
Defined.

(** ** Graphs built from the table *)

Section Graphs.

Implicit Types (G : nx.Graph) (e : Z * Z) (u v n : Z).

Lemma has_node_In G n : nx.has_node G n = true <-> In n (nx.nodes G).
Proof.
  unfold nx.has_node. rewrite existsb_exists. split.
  - intros (x & Hx & E). zbool. now subst.
  - intros H. exists n. split; [assumption|apply Z.eqb_refl].
Qed.

Lemma joins_sym u v e : nx.joins u v e = nx.joins v u e.
Proof. unfold nx.joins. apply orb_comm. Qed.

Lemma joins_spec u v e :
  nx.joins u v e = true <-> e = (u, v) \/ e = (v, u).
Proof.
  unfold nx.joins. destruct e as [a b]. simpl. split.
  - intros H. zbool; subst; auto.
  - intros [[= -> ->]|[= -> ->]]; rewrite !Z.eqb_refl; simpl;
      auto using orb_true_r.
Qed.

Lemma has_edge_sym G u v : nx.has_edge G u v = nx.has_edge G v u.
Proof.
  unfold nx.has_edge. induction (nx.edges G) as [|e l IH]; simpl; [reflexivity|].
  now rewrite IH, joins_sym.
Qed.

Lemma has_edge_In G u v :
  nx.has_edge G u v = true <-> In (u, v) (nx.edges G) \/ In (v, u) (nx.edges G).
Proof.
  unfold nx.has_edge. rewrite existsb_exists. split.
  - intros (e & He & J). apply joins_spec in J. destruct J; subst; auto.
  - intros [H|H]; eexists; (split; [exact H|]); apply joins_spec; auto.
Qed.

Lemma add_node_nodes n G n' :
  In n' (nx.nodes (nx.add_node n G)) <-> In n' (nx.nodes G) \/ n' = n.
Proof.
  unfold nx.add_node. destruct (nx.has_node G n) eqn:E; simpl.
  - apply has_node_In in E. intuition congruence.
  - rewrite in_app_iff. simpl. intuition congruence.
Qed.

Lemma add_node_edges n G : nx.edges (nx.add_node n G) = nx.edges G.
Proof. unfold nx.add_node. now destruct (nx.has_node G n). Qed.

Lemma add_node_has_edge n G u v :
  nx.has_edge (nx.add_node n G) u v = nx.has_edge G u v.
Proof. unfold nx.has_edge. now rewrite add_node_edges. Qed.

Lemma add_node_well_built n G : well_built G -> well_built (nx.add_node n G).
Proof.
  intros [ND E]. split.
  - unfold nx.add_node. destruct (nx.has_node G n) eqn:Hn; simpl; [assumption|].
    apply List.NoDup_app; [assumption|repeat constructor; intros []|].
    intros x Hx [Ex|[]]. subst x. apply (proj2 (has_node_In G n)) in Hx.
    congruence.
  - intros e He. rewrite add_node_edges in He. rewrite !add_node_nodes.
    destruct (E e He). auto.
Qed.


Lemma add_edge_has_edge e G u v :
  nx.has_edge (nx.add_edge e G) u v = nx.has_edge G u v || nx.joins u v e.
Proof.
  unfold nx.add_edge.
  destruct (nx.has_edge (nx.add_node _ _) (fst e) (snd e)) eqn:E.
  - rewrite !add_node_has_edge in E. rewrite !add_node_has_edge.
    destruct (nx.joins u v e) eqn:J; [|now rewrite orb_false_r].
    rewrite orb_true_r. apply joins_spec in J.
    destruct e as [a b]; simpl in E.
    destruct J as [[= -> ->]|[= -> ->]]; [assumption|].
    now rewrite has_edge_sym.
  - unfold nx.has_edge at 1. simpl. rewrite !add_node_edges, existsb_app.
    simpl. now rewrite orb_false_r.
Qed.

Lemma add_edge_well_built e G : well_built G -> well_built (nx.add_edge e G).
Proof.
  intros W.
  assert (W' : well_built (nx.add_node (snd e) (nx.add_node (fst e) G)))
    by now do 2 apply add_node_well_built.
  unfold nx.add_edge. destruct (nx.has_edge _ _ _); [assumption|].
  destruct W' as [ND E]. split; [assumption|]. simpl.
  intros e' He'. apply in_app_iff in He'. destruct He' as [He'|[<-|[]]].
  - now apply E.
  - rewrite !add_node_nodes. auto.
Qed.


Lemma add_nodes_from_has_edge ns G u v :
  nx.has_edge (nx.add_nodes_from ns G) u v = nx.has_edge G u v.
Proof.
  unfold nx.add_nodes_from. revert G.
  induction ns as [|a ns IH]; intros G; simpl; [reflexivity|].
  now rewrite IH, add_node_has_edge.
Qed.

Lemma add_nodes_from_well_built ns G :
  well_built G -> well_built (nx.add_nodes_from ns G).
Proof.
  unfold nx.add_nodes_from. revert G.
  induction ns as [|a ns IH]; intros G W; simpl; [assumption|].
  now apply IH, add_node_well_built.
Qed.


Lemma add_edges_from_has_edge es G u v :
  nx.has_edge (nx.add_edges_from es G) u v
  = nx.has_edge G u v || existsb (nx.joins u v) es.
Proof.
  unfold nx.add_edges_from. revert G.
  induction es as [|a es IH]; intros G; simpl.
  - now rewrite orb_false_r.
  - now rewrite IH, add_edge_has_edge, orb_assoc.
Qed.

Lemma add_edges_from_well_built es G :
  well_built G -> well_built (nx.add_edges_from es G).
Proof.
  unfold nx.add_edges_from. revert G.
  induction es as [|a es IH]; intros G W; simpl; [assumption|].
  now apply IH, add_edge_well_built.
Qed.

Lemma subgraph_nodes G (k : gset Z) n :
  In n (nx.nodes (nx.subgraph G k)) <-> In n (nx.nodes G) /\ n ∈ k.
Proof.
  unfold nx.subgraph. simpl. rewrite filter_In.
  now rewrite bool_decide_eq_true.
Qed.

Lemma subgraph_edges G (k : gset Z) e :
  In e (nx.edges (nx.subgraph G k)) <->
  In e (nx.edges G) /\ fst e ∈ k /\ snd e ∈ k.
Proof.
  unfold nx.subgraph. simpl. rewrite filter_In, andb_true_iff.
  now rewrite !bool_decide_eq_true.
Qed.

Lemma subgraph_has_edge G (k : gset Z) u v :
  nx.has_edge (nx.subgraph G k) u v = true <->
  nx.has_edge G u v = true /\ u ∈ k /\ v ∈ k.
Proof.
  rewrite !has_edge_In, !subgraph_edges. simpl. tauto.
Qed.

Lemma subgraph_has_edge_in G (k : gset Z) u v :
  u ∈ k -> v ∈ k -> nx.has_edge (nx.subgraph G k) u v = nx.has_edge G u v.
Proof.
  intros Hu Hv. apply eq_true_iff_eq. rewrite subgraph_has_edge. tauto.
Qed.

Lemma subgraph_NoDup G (k : gset Z) :
  List.NoDup (nx.nodes G) -> List.NoDup (nx.nodes (nx.subgraph G k)).
Proof. intros H. unfold nx.subgraph. simpl. now apply List.NoDup_filter. Qed.

End Graphs.

Lemma get_graph_well_built (g_id : Z) (db : database) :
  well_built (_get_graph g_id db).
Proof.
  unfold _get_graph. apply add_edges_from_well_built, add_nodes_from_well_built.
  split; [constructor|intros e []].
Qed.

Lemma get_graph_NoDup (g_id : Z) (db : database) :
  List.NoDup (nx.nodes (_get_graph g_id db)).
Proof. apply get_graph_well_built. Qed.

Lemma get_graph_has_edge (g_id : Z) (db : database) (u v : Z) :
  nx.has_edge (_get_graph g_id db) u v = true <-> stored_edge db g_id u v.
Proof.
  unfold _get_graph. rewrite add_edges_from_has_edge, add_nodes_from_has_edge.
  simpl. rewrite existsb_exists. unfold stored_edge. split.
  - intros (e & He & J). apply in_flat_map in He. destruct He as (d & Hd & He).
    apply in_search in Hd. destruct Hd as [Hd Hq].
    destruct d; simpl in He, Hq; try contradiction. destruct He as [<-|[]].
    zbool. subst. apply joins_spec in J. destruct J as [[= -> ->]|[= -> ->]]; auto.
  - intros [H|H]; eexists; (split; [apply in_flat_map; eexists;
      (split; [apply in_search; split; [exact H|simpl; apply Z.eqb_refl]
              |now left])|]); apply joins_spec; auto.
Qed.


(** ** The candidate ordering *)

Lemma split_by_Permutation (f : Z -> bool) (l : list Z) :
  Permutation (fst (isoalg.split_by f l) ++ snd (isoalg.split_by f l)) l.
Proof.
  unfold isoalg.split_by. simpl. induction l as [|a l IH]; simpl; [constructor|].
  destruct (f a); simpl.
  - now constructor.
  - etransitivity; [symmetry; apply Permutation_middle|now constructor].
Qed.

Lemma traverse_Permutation (P : nx.Graph) (fuel : nat) (queue rest : list Z) :
  (length (queue ++ rest) <= fuel)%nat ->
  Permutation (isoalg.traverse fuel P queue rest) (queue ++ rest).
Proof.
  revert queue rest. induction fuel as [|fuel IH]; intros queue rest Hlen.
  - destruct queue, rest; simpl in *; try lia. constructor.
  - destruct queue as [|v queue]; [destruct rest as [|v rest]|]; simpl.
    + constructor.
    + pose proof (split_by_Permutation (nx.has_edge P v) rest) as Hs.
      unfold isoalg.split_by in Hs. simpl in Hs.
      constructor. etransitivity; [apply IH|exact Hs].
      apply Permutation_length in Hs. simpl in Hlen. lia.
    + pose proof (split_by_Permutation (nx.has_edge P v) rest) as Hs.
      unfold isoalg.split_by in Hs. simpl in Hs.
      constructor. etransitivity; [apply IH|].
      * apply Permutation_length in Hs. simpl in Hlen.
        rewrite length_app in *. rewrite length_app. lia.
      * rewrite <- app_assoc. now apply Permutation_app_head.
Qed.

Lemma candidate_order_Permutation (P : nx.Graph) :
  Permutation (isoalg.candidate_order P) (nx.nodes P).
Proof.
  unfold isoalg.candidate_order.
  pose proof (merge_sort_Permutation Z.le (nx.nodes P)) as Hs.
  etransitivity; [apply traverse_Permutation|exact Hs].
  simpl. apply Permutation_length in Hs. unfold nx.number_of_nodes. lia.
Qed.

(** ** The matcher finds the induced matches, and all of them *)

Section Matcher.

Variables H P : nx.Graph.

Implicit Types (gm : isoalg.mapping) (c p q : Z).

Lemma used_keys gm c : isoalg.used gm c = true <-> In c (isoalg.keys gm).
Proof.
  unfold isoalg.used, isoalg.keys. rewrite existsb_exists, in_map_iff.
  split; intros (x & H1 & H2); exists x; zbool; auto.
  split; [assumption|]. now apply Z.eqb_eq.
Qed.

Lemma candidates_sound gm p c :
  In c (isoalg.candidates H P gm p) ->
  In c (nx.nodes H) /\ ~ In c (isoalg.keys gm).
Proof.
  unfold isoalg.candidates. intros Hc.
  assert (Hu : In c (List.filter (fun c => negb (isoalg.used gm c)) (nx.nodes H))).
  { destruct (isoalg.mapped_neighbours P gm p); [assumption|].
    now apply filter_In in Hc. }
  apply filter_In in Hu. destruct Hu as [Hn Hu]. split; [assumption|].
  rewrite <- used_keys. now destruct (isoalg.used gm c).
Qed.

Lemma consistent_spec gm p c :
  isoalg.consistent H P gm p c = true <->
  forall c' q, In (c', q) gm -> nx.has_edge P p q = nx.has_edge H c c'.
Proof.
  unfold isoalg.consistent. rewrite forallb_forall. split.
  - intros Hf c' q Hin. specialize (Hf _ Hin). simpl in Hf.
    now apply eqb_prop in Hf.
  - intros Hf [c' q] Hin. simpl. rewrite (Hf _ _ Hin). apply eqb_reflx.
Qed.

Lemma partial_match_extend gm p c :
  partial_match H P gm -> ~ In p (map snd gm) ->
  In c (isoalg.candidates H P gm p) ->
  isoalg.consistent H P gm p c = true ->
  partial_match H P (gm ++ [(c, p)]).
Proof.
  intros (ND & Sub & Adj) Hp Hc Hcons. apply candidates_sound in Hc.
  destruct Hc as [HcH Hcu]. rewrite consistent_spec in Hcons.
  unfold partial_match, isoalg.keys. rewrite map_app. simpl. split; [|split].
  - apply List.NoDup_app; [assumption|repeat constructor; intros []|].
    intros x Hx [Ex|[]]. now subst x.
  - intros x Hx. apply in_app_iff in Hx. destruct Hx as [Hx|[<-|[]]]; auto.
  - intros c1 q1 c2 q2 H1 H2 Hne. apply in_app_iff in H1, H2.
    destruct H1 as [H1|[[= <- <-]|[]]], H2 as [H2|[[= <- <-]|[]]].
    + now apply Adj.
    + rewrite (has_edge_sym P), (has_edge_sym H). now apply Hcons.
    + now apply Hcons.
    + congruence.
Qed.

Lemma search_sound (order : list Z) gm gm' :
  partial_match H P gm -> List.NoDup (map snd gm ++ order) ->
  In gm' (isoalg.search H P order gm) ->
  partial_match H P gm' /\ map snd gm' = map snd gm ++ order.
Proof.
  revert gm. induction order as [|p order IH]; intros gm PM ND Hin; simpl in Hin.
  - destruct Hin as [<-|[]]. now rewrite app_nil_r.
  - apply in_flat_map in Hin. destruct Hin as (c & Hc & Hin).
    destruct (isoalg.consistent H P gm p c) eqn:Hcons; [|destruct Hin].
    assert (Hp : ~ In p (map snd gm)).
    { apply NoDup_remove_2 in ND. rewrite in_app_iff in ND. tauto. }
    apply IH in Hin.
    + destruct Hin as [PM' E]. split; [assumption|].
      rewrite E, map_app. simpl. now rewrite <- app_assoc.
    + now apply partial_match_extend.
    + rewrite map_app. simpl. now rewrite <- app_assoc.
Qed.

Lemma candidates_complete gm p c :
  partial_match H P (gm ++ [(c, p)]) -> ~ In p (map snd gm) ->
  In c (isoalg.candidates H P gm p).
Proof.
  intros (ND & Sub & Adj) Hp. unfold isoalg.keys in ND, Sub.
  rewrite map_app in ND, Sub. simpl in ND, Sub.
  assert (Hu : In c (List.filter (fun c => negb (isoalg.used gm c)) (nx.nodes H))).
  { apply filter_In. split.
    - apply Sub, in_app_iff. right. now left.
    - destruct (isoalg.used gm c) eqn:U; [|reflexivity].
      apply used_keys in U. apply NoDup_remove_2 in ND.
      rewrite app_nil_r in ND. contradiction. }
  unfold isoalg.candidates.
  destruct (isoalg.mapped_neighbours P gm p) as [|[c' q] nbrs] eqn:E;
    [assumption|].
  apply filter_In. split; [assumption|]. simpl.
  assert (Hn : In (c', q) (isoalg.mapped_neighbours P gm p))
    by (rewrite E; now left).
  unfold isoalg.mapped_neighbours in Hn. apply filter_In in Hn.
  destruct Hn as [Hin Hpq]. simpl in Hpq.
  rewrite <- (Adj c p c' q), Hpq; [reflexivity| | |].
  - apply in_app_iff. right. now left.
  - apply in_app_iff. now left.
  - intros ->. apply Hp, in_map_iff. now exists (c', q).
Qed.

Lemma consistent_complete gm p c :
  partial_match H P (gm ++ [(c, p)]) -> ~ In p (map snd gm) ->
  isoalg.consistent H P gm p c = true.
Proof.
  intros (_ & _ & Adj) Hp. apply consistent_spec. intros c' q Hin.
  apply Adj.
  - apply in_app_iff. right. now left.
  - apply in_app_iff. now left.
  - intros ->. apply Hp, in_map_iff. now exists (c', q).
Qed.

Lemma partial_match_prefix gm gm' :
  partial_match H P (gm ++ gm') -> partial_match H P gm.
Proof.
  intros (ND & Sub & Adj). unfold isoalg.keys in *. rewrite map_app in ND, Sub.
  split; [|split].
  - eapply NoDup_app_remove_r, ND.
  - intros c Hc. apply Sub, in_app_iff. now left.
  - intros c q c' q' H1 H2. apply Adj; apply in_app_iff; now left.
Qed.

Lemma search_complete (todo : isoalg.mapping) gm :
  partial_match H P (gm ++ todo) -> List.NoDup (map snd (gm ++ todo)) ->
  In (gm ++ todo) (isoalg.search H P (map snd todo) gm).
Proof.
  revert gm. induction todo as [|[c p] todo IH]; intros gm PM ND; simpl.
  - left. now rewrite app_nil_r.
  - assert (E : gm ++ (c, p) :: todo = (gm ++ [(c, p)]) ++ todo)
      by now rewrite <- app_assoc.
    rewrite E in PM, ND |- *.
    assert (PM' : partial_match H P (gm ++ [(c, p)]))
      by now apply partial_match_prefix in PM.
    assert (Hp : ~ In p (map snd gm)).
    { rewrite !map_app in ND. apply NoDup_app_remove_r in ND. simpl in ND.
      apply NoDup_remove_2 in ND. now rewrite app_nil_r in ND. }
    apply in_flat_map. exists c. split; [now apply candidates_complete|].
    rewrite consistent_complete by assumption. now apply IH.
Qed.

Lemma induced_match_partial gm :
  induced_match H P gm -> partial_match H P gm.
Proof. intros (H1 & H2 & H3 & H4 & H5). now split; [|split]. Qed.

Lemma induced_match_Permutation gm gm' :
  Permutation gm gm' -> induced_match H P gm -> induced_match H P gm'.
Proof.
  intros Hp (H1 & H2 & H3 & H4 & H5). unfold isoalg.keys in *.
  assert (Hin : forall x, In x gm' -> In x gm)
    by (intros x; apply Permutation_in; now symmetry).
  split; [|split; [|split; [|split]]].
  - eapply Permutation_NoDup; [|exact H1]. now apply Permutation_map.
  - eapply Permutation_NoDup; [|exact H2]. now apply Permutation_map.
  - intros c Hc. apply H3. revert Hc. apply Permutation_in.
    symmetry. now apply Permutation_map.
  - intros p. rewrite <- H4. split; apply Permutation_in;
      [symmetry|]; now apply Permutation_map.
  - intros c q c' q' Hc Hc'. apply H5; now apply Hin.
Qed.

Lemma induced_match_size gm :
  List.NoDup (nx.nodes P) -> induced_match H P gm ->
  (nx.number_of_nodes P <= nx.number_of_nodes H)%nat.
Proof.
  intros NDP (H1 & H2 & H3 & H4 & H5). unfold nx.number_of_nodes.
  transitivity (length (map snd gm)).
  - apply List.NoDup_incl_length; [assumption|]. intros p. apply H4.
  - rewrite length_map, <- (length_map fst).
    apply List.NoDup_incl_length; assumption.
Qed.

Lemma iter_sound gm :
  List.NoDup (nx.nodes P) ->
  In gm (isoalg.subgraph_isomorphisms_iter H P) -> induced_match H P gm.
Proof.
  intros NDP Hin. unfold isoalg.subgraph_isomorphisms_iter in Hin.
  destruct (nx.number_of_nodes H <? nx.number_of_nodes P)%nat; [destruct Hin|].
  pose proof (candidate_order_Permutation P) as Hperm.
  apply search_sound in Hin.
  - destruct Hin as [(H1 & H2 & H3) E]. simpl in E.
    split; [|split; [|split; [|split]]]; try assumption.
    + rewrite E. eapply Permutation_NoDup; [symmetry; exact Hperm|assumption].
    + intros p. rewrite E. split; apply Permutation_in; [|symmetry]; assumption.
  - split; [constructor|]. split; [intros c []|intros c q c' q' []].
  - simpl. eapply Permutation_NoDup; [symmetry; exact Hperm|assumption].
Qed.

Lemma iter_complete gm :
  List.NoDup (nx.nodes P) -> induced_match H P gm ->
  exists gm', Permutation gm gm' /\
              In gm' (isoalg.subgraph_isomorphisms_iter H P).
Proof.
  intros NDP IM. pose proof (induced_match_size gm NDP IM) as Hsize.
  pose proof (candidate_order_Permutation P) as Hperm.
  assert (Hord : Permutation (isoalg.candidate_order P) (map snd gm)).
  { etransitivity; [exact Hperm|].
    destruct IM as (_ & H2 & _ & H4 & _).
    apply Permutation.NoDup_Permutation; try assumption.
    intros p. symmetry. apply H4. }
  apply Permutation_map_inv in Hord. destruct Hord as (gm' & E & Hgm).
  exists gm'. split; [assumption|].
  apply (induced_match_Permutation _ _ Hgm) in IM.
  unfold isoalg.subgraph_isomorphisms_iter.
  replace (nx.number_of_nodes H <? nx.number_of_nodes P)%nat with false
    by (symmetry; apply Nat.ltb_ge; exact Hsize).
  rewrite E. apply (search_complete gm' []); simpl.
  - now apply induced_match_partial.
  - now destruct IM as (_ & H2 & _).
Qed.

End Matcher.

(** ** Matches and isomorphisms *)

Lemma key_set_In (gm : isoalg.mapping) (u : Z) :
  u ∈ key_set gm <-> In u (isoalg.keys gm).
Proof. unfold key_set. now rewrite elem_of_list_to_set, list_elem_of_In. Qed.

Lemma key_set_Permutation (gm gm' : isoalg.mapping) :
  Permutation gm gm' -> key_set gm = key_set gm'.
Proof.
  intros Hp. apply set_eq. intros u. rewrite !key_set_In. unfold isoalg.keys.
  split; apply Permutation_in; [|symmetry]; now apply Permutation_map.
Qed.

Lemma image_In (gm : isoalg.mapping) (c q : Z) :
  List.NoDup (isoalg.keys gm) -> In (c, q) gm -> image gm c = q.
Proof.
  unfold image. induction gm as [|[c0 q0] gm IH]; intros ND Hin; [destruct Hin|].
  simpl in ND. inversion ND as [|? ? Hc0 ND']; subst. simpl.
  destruct (c0 =? c) eqn:E; simpl.
  - zbool. subst c0. destruct Hin as [[= ->]|Hin]; [reflexivity|].
    exfalso. apply Hc0. unfold isoalg.keys. apply in_map_iff. now exists (c, q).
  - zbool. destruct Hin as [[= -> ->]|Hin]; [congruence|]. now apply IH.
Qed.

Lemma snd_injective (gm : isoalg.mapping) (c c' q : Z) :
  List.NoDup (map snd gm) -> In (c, q) gm -> In (c', q) gm -> c = c'.
Proof.
  induction gm as [|[c0 q0] gm IH]; intros ND H1 H2; [destruct H1|].
  simpl in ND. inversion ND as [|? ? Hq ND']; subst.
  destruct H1 as [E1|H1], H2 as [E2|H2].
  - congruence.
  - exfalso. apply Hq, in_map_iff. exists (c', q). split; [simpl|]; congruence.
  - exfalso. apply Hq, in_map_iff. exists (c, q). split; [simpl|]; congruence.
  - now apply IH.
Qed.

Section MatchIso.

Variables H P : nx.Graph.

Lemma induced_match_isomorphism (gm : isoalg.mapping) :
  induced_match H P gm ->
  subset_of (key_set gm) H /\
  isomorphism (nx.subgraph H (key_set gm)) P (image gm).
Proof.
  intros (H1 & H2 & H3 & H4 & H5).
  assert (Hk : forall u, In u (nx.nodes (nx.subgraph H (key_set gm))) ->
                 exists q, In (u, q) gm /\ image gm u = q).
  { intros u Hu. apply subgraph_nodes in Hu. destruct Hu as [_ Hu].
    apply key_set_In in Hu. unfold isoalg.keys in Hu. apply in_map_iff in Hu.
    destruct Hu as ([c q] & <- & Hin). exists q. split; [assumption|].
    now apply image_In. }
  split; [|split; [|split; [|split]]].
  - intros u Hu. apply H3. now apply key_set_In.
  - intros u Hu. destruct (Hk u Hu) as (q & Hin & ->).
    apply H4, in_map_iff. now exists (u, q).
  - intros u v Hu Hv E. destruct (Hk u Hu) as (q & Hin & Eu).
    destruct (Hk v Hv) as (q' & Hin' & Ev).
    assert (Eq : q' = q) by congruence. rewrite Eq in Hin'.
    exact (snd_injective gm u v q H2 Hin Hin').
  - intros p Hp. apply H4, in_map_iff in Hp. destruct Hp as ([c q] & <- & Hin).
    exists c. simpl. split; [|now apply image_In].
    apply subgraph_nodes. split.
    + apply H3. unfold isoalg.keys. apply in_map_iff. now exists (c, q).
    + apply key_set_In. unfold isoalg.keys. apply in_map_iff. now exists (c, q).
  - intros u v Hu Hv Hne. destruct (Hk u Hu) as (q & Hin & ->).
    destruct (Hk v Hv) as (q' & Hin' & ->).
    apply subgraph_nodes in Hu, Hv.
    rewrite subgraph_has_edge_in by tauto. symmetry. apply H5; try assumption.
    intros Eq. rewrite Eq in Hin.
    exact (Hne (snd_injective gm u v _ H2 Hin Hin')).
Qed.

Lemma isomorphism_induced_match (S : gset Z) (f : Z -> Z) :
  List.NoDup (nx.nodes H) -> subset_of S H ->
  isomorphism (nx.subgraph H S) P f ->
  let gm := map (fun u => (u, f u)) (nx.nodes (nx.subgraph H S)) in
  induced_match H P gm /\ key_set gm = S.
Proof.
  intros NDH Sub (F1 & F2 & F3 & F4) gm.
  assert (Ek : isoalg.keys gm = nx.nodes (nx.subgraph H S)).
  { unfold gm, isoalg.keys. rewrite map_map. simpl. apply map_id. }
  assert (Es : map snd gm = map f (nx.nodes (nx.subgraph H S))).
  { unfold gm. rewrite map_map. reflexivity. }
  assert (Hin : forall c q, In (c, q) gm ->
                  In c (nx.nodes (nx.subgraph H S)) /\ q = f c).
  { intros c q Hc. unfold gm in Hc. apply in_map_iff in Hc.
    destruct Hc as (u & [= <- <-] & Hu). auto. }
  split.
  - split; [|split; [|split; [|split]]].
    + rewrite Ek. now apply subgraph_NoDup.
    + rewrite Es. apply NoDup_map_NoDup_ForallPairs.
      * intros u v Hu Hv. now apply F2.
      * now apply subgraph_NoDup.
    + rewrite Ek. intros c Hc. now apply subgraph_nodes in Hc.
    + rewrite Es. intros p. rewrite in_map_iff. split.
      * intros (u & <- & Hu). now apply F1.
      * intros Hp. destruct (F3 p Hp) as (u & Hu & <-). eauto.
    + intros c q c' q' Hc Hc' Hne.
      apply Hin in Hc, Hc'. destruct Hc as [Hc ->], Hc' as [Hc' ->].
      rewrite <- F4; try assumption; [|congruence].
      apply subgraph_nodes in Hc, Hc'. apply subgraph_has_edge_in; tauto.
  - apply set_eq. intros u. rewrite key_set_In, Ek, subgraph_nodes.
    split; [tauto|]. intros Hu. split; [now apply Sub|assumption].
Qed.

(** Every mapping the matcher yields is an isomorphism between the
    subgraph induced by its keys and the pattern. *)
Lemma matcher_sound (gm : isoalg.mapping) :
  List.NoDup (nx.nodes P) ->
  In gm (isoalg.subgraph_isomorphisms_iter H P) ->
  subset_of (key_set gm) H /\
  isomorphism (nx.subgraph H (key_set gm)) P (image gm).
Proof.
  intros NDP Hin. now apply induced_match_isomorphism, iter_sound.
Qed.

(** Every vertex subset that induces a subgraph isomorphic to the pattern
    is the key set of a mapping the matcher yields. *)
Lemma matcher_complete (S : gset Z) :
  List.NoDup (nx.nodes H) -> List.NoDup (nx.nodes P) ->
  subset_of S H -> isomorphic (nx.subgraph H S) P ->
  exists gm, In gm (isoalg.subgraph_isomorphisms_iter H P) /\ key_set gm = S.
Proof.
  intros NDH NDP Sub [f Hf].
  destruct (isomorphism_induced_match S f NDH Sub Hf) as [IM E].
  destruct (iter_complete H P _ NDP IM) as (gm' & Hp & Hin).
  exists gm'. split; [assumption|]. now rewrite <- (key_set_Permutation _ _ Hp).
Qed.

End MatchIso.

(** ** The loop *)

Lemma visit_unfold (g : nx.Graph) (id : Z) (inds : gset (gset Z))
    (out : list induced_subgraph) (gm : isoalg.mapping) :
  visit g id (inds, out) gm
  = if bool_decide (key_set gm ∈ inds) then (inds, out)
    else ({[key_set gm]} ∪ inds, out ++ [record_of g id gm]).
Proof. reflexivity. Qed.

Lemma vertex_set_record_of (g : nx.Graph) (id : Z) (gm : isoalg.mapping) :
  vertex_set (record_of g id gm) = key_set gm.
Proof. unfold vertex_set, record_of. simpl. apply list_to_set_elements_L. Qed.

Lemma aggregate_snoc (g : nx.Graph) (l : list (Z * isoalg.mapping))
    (m : Z * isoalg.mapping) (st : gset (gset Z) * list induced_subgraph) :
  aggregate g (l ++ [m]) st = visit g (fst m) (aggregate g l st) (snd m).
Proof. unfold aggregate. now rewrite fold_left_app. Qed.

Lemma aggregate_app (g : nx.Graph) (l1 l2 : list (Z * isoalg.mapping))
    (st : gset (gset Z) * list induced_subgraph) :
  aggregate g (l1 ++ l2) st = aggregate g l2 (aggregate g l1 st).
Proof. unfold aggregate. now rewrite fold_left_app. Qed.

Lemma aggregate_cons (g : nx.Graph) (m : Z * isoalg.mapping)
    (l : list (Z * isoalg.mapping))
    (st : gset (gset Z) * list induced_subgraph) :
  aggregate g (m :: l) st = aggregate g l (visit g (fst m) st (snd m)).
Proof. reflexivity. Qed.

(** The records only accumulate: what has been accepted stays. *)
Lemma aggregate_extends (g : nx.Graph) (l : list (Z * isoalg.mapping))
    (st : gset (gset Z) * list induced_subgraph) :
  exists more, snd (aggregate g l st) = snd st ++ more.
Proof.
  revert st. induction l as [|m l IH]; intros [inds out].
  - exists []. simpl. now rewrite app_nil_r.
  - rewrite aggregate_cons, visit_unfold.
    destruct (bool_decide (key_set (snd m) ∈ inds)).
    + apply IH.
    + destruct (IH ({[key_set (snd m)]} ∪ inds,
                    out ++ [record_of g (fst m) (snd m)])) as [more E].
      exists (record_of g (fst m) (snd m) :: more).
      rewrite E. cbn [snd]. now rewrite <- app_assoc.
Qed.

Lemma aggregate_spec (g : nx.Graph) (l : list (Z * isoalg.mapping)) :
  let st := aggregate g l (∅, []) in
  (forall k, k ∈ fst st <-> exists m, In m l /\ key_set (snd m) = k) /\
  (forall k, k ∈ fst st <-> exists r, In r (snd st) /\ vertex_set r = k) /\
  List.NoDup (map vertex_set (snd st)) /\
  (forall r, In r (snd st) ->
     exists l1 m l2,
       l = l1 ++ m :: l2 /\
       (forall x, In x l1 -> key_set (snd x) <> key_set (snd m)) /\
       r = record_of g (fst m) (snd m)).
Proof.
  induction l as [|m l IH] using rev_ind; simpl.
  - split; [|split; [|split]].
    + intros k. split; [set_solver|]. intros (m & [] & _).
    + intros k. split; [set_solver|]. intros (m & [] & _).
    + constructor.
    + intros r [].
  - rewrite aggregate_snoc. destruct (aggregate g l (∅, [])) as [inds out].
    simpl in IH. destruct IH as (I1 & I2 & I3 & I4).
    rewrite visit_unfold. destruct (bool_decide (key_set (snd m) ∈ inds)) eqn:B.
    + apply bool_decide_eq_true in B. simpl. split; [|split; [|split]].
      * intros k. rewrite I1. split.
        -- intros (x & Hx & E). exists x. split; [|assumption].
           apply in_app_iff. now left.
        -- intros (x & Hx & E). apply in_app_iff in Hx.
           destruct Hx as [Hx|[<-|[]]]; [eauto|].
           subst k. now apply I1.
      * assumption.
      * assumption.
      * intros r Hr. destruct (I4 r Hr) as (l1 & x & l2 & -> & Hl1 & ->).
        exists l1, x, (l2 ++ [m]). rewrite <- app_assoc. simpl. auto.
    + apply bool_decide_eq_false in B. simpl. split; [|split; [|split]].
      * intros k. rewrite elem_of_union, elem_of_singleton, I1. split.
        -- intros [->|(x & Hx & E)].
           ++ exists m. split; [|reflexivity]. apply in_app_iff. right. now left.
           ++ exists x. split; [|assumption]. apply in_app_iff. now left.
        -- intros (x & Hx & E). apply in_app_iff in Hx.
           destruct Hx as [Hx|[<-|[]]]; [right; eauto|now left].
      * intros k. rewrite elem_of_union, elem_of_singleton, I2. split.
        -- intros [->|(r & Hr & E)].
           ++ exists (record_of g (fst m) (snd m)).
              split; [|apply vertex_set_record_of].
              apply in_app_iff. right. now left.
           ++ exists r. split; [|assumption]. apply in_app_iff. now left.
        -- intros (r & Hr & E). apply in_app_iff in Hr.
           destruct Hr as [Hr|[<-|[]]]; [right; eauto|].
           left. now rewrite vertex_set_record_of in E.
      * rewrite map_app. simpl. apply List.NoDup_app;
          [assumption|repeat constructor; intros []|].
        intros k Hk [Ek|[]]. subst k. rewrite vertex_set_record_of in Hk.
        apply B, I2. apply in_map_iff in Hk. destruct Hk as (r & E & Hr). eauto.
      * intros r Hr. apply in_app_iff in Hr. destruct Hr as [Hr|[<-|[]]].
        -- destruct (I4 r Hr) as (l1 & x & l2 & -> & Hl1 & ->).
           exists l1, x, (l2 ++ [m]). rewrite <- app_assoc. simpl. auto.
        -- exists l, m, []. split; [reflexivity|]. split; [|reflexivity].
           intros x Hx E. apply B, I1. eauto.
Qed.

Lemma inner_loop (g : nx.Graph) (id : Z) (gms : list isoalg.mapping)
    (st : gset (gset Z) * list induced_subgraph) :
  fold_left (visit g id) gms st = aggregate g (map (pair id) gms) st.
Proof.
  unfold aggregate. revert st. induction gms as [|gm gms IH]; intros st; simpl;
    [reflexivity|apply IH].
Qed.

Lemma get_induced_subgraphs_aggregate (db : database) :
  get_induced_subgraphs db
  = snd (aggregate (_get_graph 0 db) (matches db) (∅, [])).
Proof.
  unfold get_induced_subgraphs, matches.
  generalize (∅ : gset (gset Z), [] : list induced_subgraph).
  induction (isos db) as [|id ids IH]; intros st; simpl; [reflexivity|].
  rewrite aggregate_app, inner_loop. apply IH.
Qed.

(** Where an element of a flattened sequence comes from. *)
Lemma flat_map_split {A B : Type} (f : A -> list B) (ids : list A)
    (l1 l2 : list B) (x : B) :
  flat_map f ids = l1 ++ x :: l2 ->
  exists i1 a i2,
    ids = i1 ++ a :: i2 /\ In x (f a) /\
    (forall a' y, In a' i1 -> In y (f a') -> In y l1).
Proof.
  revert l1. induction ids as [|a ids IH]; intros l1 E; simpl in E.
  - destruct l1; discriminate.
  - apply app_eq_app in E. destruct E as (l & [[E1 E2]|[E1 E2]]).
    + destruct l as [|y l].
      * simpl in E2. rewrite app_nil_r in E1. subst l1.
        destruct (IH [] (eq_sym E2)) as (i1 & b & i2 & -> & Hx & Hpre).
        exists (a :: i1), b, i2. split; [reflexivity|]. split; [assumption|].
        intros a' y [<-|Ha'] Hy; [assumption|]. destruct (Hpre a' y Ha' Hy).
      * injection E2 as <- E2. exists [], a, ids. split; [reflexivity|]. split.
        -- rewrite E1. apply in_app_iff. right. now left.
        -- intros a' y' [].
    + destruct (IH l E2) as (i1 & b & i2 & -> & Hx & Hpre).
      exists (a :: i1), b, i2. split; [reflexivity|]. split; [assumption|].
      intros a' y [<-|Ha'] Hy; rewrite E1; apply in_app_iff;
        [now left|right; eauto].
Qed.

(** Where a match sits in the sequence of all matches. *)
Lemma matches_split (db : database) (l1 l2 : list (Z * isoalg.mapping))
    (id : Z) (gm : isoalg.mapping) :
  matches db = l1 ++ (id, gm) :: l2 ->
  exists i1 i2,
    isos db = i1 ++ id :: i2 /\
    In gm (isoalg.subgraph_isomorphisms_iter (_get_graph 0 db)
             (_get_graph id db)) /\
    (forall id' gm', In id' i1 ->
       In gm' (isoalg.subgraph_isomorphisms_iter (_get_graph 0 db)
                 (_get_graph id' db)) ->
       In (id', gm') l1).
Proof.
  unfold matches. intros E. apply flat_map_split in E.
  destruct E as (i1 & a & i2 & E & Hx & Hpre).
  apply in_map_iff in Hx. destruct Hx as (gm0 & [= -> ->] & Hin).
  exists i1, i2. split; [assumption|]. split; [assumption|].
  intros id' gm' Hid Hgm. apply (Hpre id'); [assumption|]. now apply in_map.
Qed.

Lemma in_matches (db : database) (id : Z) (gm : isoalg.mapping) :
  In (id, gm) (matches db) <->
  In id (isos db) /\
  In gm (isoalg.subgraph_isomorphisms_iter (_get_graph 0 db) (_get_graph id db)).
Proof.
  unfold matches. rewrite in_flat_map. split.
  - intros (a & Ha & Hin). apply in_map_iff in Hin.
    destruct Hin as (gm0 & [= -> ->] & Hin). auto.
  - intros [Hid Hgm]. exists id. split; [assumption|]. now apply in_map.
Qed.

(** ** The query *)

(** Every returned record is the record of a match, the first one of the
    sequence with its key set. *)
Lemma record_origin (db : database) (r : induced_subgraph) :
  In r (get_induced_subgraphs db) ->
  exists l1 id gm l2,
    matches db = l1 ++ (id, gm) :: l2 /\
    (forall x, In x l1 -> key_set (snd x) <> key_set gm) /\
    r = record_of (_get_graph 0 db) id gm.
Proof.
  rewrite get_induced_subgraphs_aggregate. intros Hr.
  destruct (aggregate_spec (_get_graph 0 db) (matches db)) as (_ & _ & _ & I4).
  destruct (I4 r Hr) as (l1 & [id gm] & l2 & E & Hl1 & ->).
  exists l1, id, gm, l2. auto.
Qed.

Lemma record_match (db : database) (r : induced_subgraph) :
  In r (get_induced_subgraphs db) ->
  exists gm,
    In (subgraph_id r) (isos db) /\
    In gm (isoalg.subgraph_isomorphisms_iter (_get_graph 0 db)
             (_get_graph (subgraph_id r) db)) /\
    r = record_of (_get_graph 0 db) (subgraph_id r) gm.
Proof.
  intros Hr. destruct (record_origin db r Hr) as (l1 & id & gm & l2 & E & _ & ->).
  exists gm. simpl. split; [|split; [|reflexivity]];
    apply (in_matches db id gm); rewrite E; apply in_app_iff; right; now left.
Qed.


Lemma record_size (H P : nx.Graph) (id : Z) (gm : isoalg.mapping) :
  List.NoDup (nx.nodes P) -> induced_match H P gm ->
  length (nodes (record_of H id gm)) = nx.number_of_nodes P.
Proof.
  intros NDP (H1 & H2 & _ & H4 & _). simpl. unfold key_set.
  change (size (list_to_set (isoalg.keys gm) : gset Z) = nx.number_of_nodes P).
  rewrite size_list_to_set by now apply NoDup_ListNoDup.
  unfold isoalg.keys, nx.number_of_nodes. rewrite length_map, <- (length_map snd).
  apply Permutation_length, Permutation.NoDup_Permutation; assumption.
Qed.

(** C1: every returned record is attributed to a graph of I, its vertex
    subset is a set of host vertices with as many elements as the pattern
    has vertices, and the subgraph of the host (graph 0) induced by that
    subset is isomorphic to the pattern: a bijection onto the pattern's
    vertices under which two distinct vertices are adjacent exactly when
    their images are. *)
Theorem enumeration_sound (db : database) (r : induced_subgraph) :
  In r (get_induced_subgraphs db) ->
  In (subgraph_id r) (isos db) /\
  subset_of (vertex_set r) (_get_graph 0 db) /\
  length (nodes r) = nx.number_of_nodes (_get_graph (subgraph_id r) db) /\
  isomorphic (nx.subgraph (_get_graph 0 db) (vertex_set r))
    (_get_graph (subgraph_id r) db).
Proof.
  intros Hr. destruct (record_match db r Hr) as (gm & Hid & Hgm & E).
  pose proof (get_graph_NoDup (subgraph_id r) db) as NDP.
  destruct (matcher_sound _ _ gm NDP Hgm) as [Sub Iso].
  assert (Ev : vertex_set r = key_set gm).
  { rewrite E at 1. apply vertex_set_record_of. }
  rewrite Ev. split; [assumption|]. split; [assumption|]. split.
  - rewrite E at 1. apply record_size; [assumption|]. now apply iter_sound.
  - now exists (image gm).
Qed.


(** C6: a graph of I with more vertices than the host has an empty match
    sequence, which the size test alone decides (the search itself would
    find nothing either), and no returned record is attributed to it. *)
Theorem larger_pattern_rejected (db : database) (id : Z) :
  (nx.number_of_nodes (_get_graph 0 db)
   < nx.number_of_nodes (_get_graph id db))%nat ->
  isoalg.subgraph_isomorphisms_iter (_get_graph 0 db) (_get_graph id db) = [] /\
  isoalg.search (_get_graph 0 db) (_get_graph id db)
    (isoalg.candidate_order (_get_graph id db)) [] = [] /\
  (forall r, In r (get_induced_subgraphs db) -> subgraph_id r <> id).
Proof.
  intros Hlt.
  assert (E : isoalg.subgraph_isomorphisms_iter (_get_graph 0 db)
                (_get_graph id db) = []).
  { unfold isoalg.subgraph_isomorphisms_iter.
    now rewrite (proj2 (Nat.ltb_lt _ _) Hlt). }
  split; [exact E|]. split.
  - destruct (isoalg.search _ _ _ _) as [|gm l] eqn:S; [reflexivity|].
    exfalso.
    assert (Hin : In gm (isoalg.search (_get_graph 0 db) (_get_graph id db)
                           (isoalg.candidate_order (_get_graph id db)) []))
      by (rewrite S; now left).
    pose proof (candidate_order_Permutation (_get_graph id db)) as Hperm.
    pose proof (get_graph_NoDup id db) as NDP.
    apply search_sound in Hin.
    + destruct Hin as [(H1 & H2 & _) Es]. simpl in Es.
      assert (Hle : (length (isoalg.keys gm)
                     <= length (nx.nodes (_get_graph 0 db)))%nat)
        by now apply List.NoDup_incl_length.
      unfold isoalg.keys in Hle. rewrite length_map, <- (length_map snd), Es in Hle.
      apply Permutation_length in Hperm. unfold nx.number_of_nodes in Hlt. lia.
    + split; [constructor|]. split; [intros c []|intros c q c' q' []].
    + simpl. eapply Permutation_NoDup; [symmetry; exact Hperm|assumption].
  - intros r Hr <-. destruct (record_match db r Hr) as (gm & _ & Hgm & _).
    rewrite E in Hgm. destruct Hgm.
Qed.

Lemma larger_pattern_rejected_witness :
  let db := [NodeDoc 0 1 0 0; NodeDoc 0 2 0 0; EdgeDoc 0 1 2;
             NodeDoc 1 1 0 0; NodeDoc 1 2 0 0; NodeDoc 1 3 0 0;
             EdgeDoc 1 1 2; IsoDoc 1;
             NodeDoc 2 5 0 0; IsoDoc 2] in
  isoalg.subgraph_isomorphisms_iter (_get_graph 0 db) (_get_graph 1 db) = [] /\
  (forall r, In r (get_induced_subgraphs db) -> subgraph_id r <> 1).
Proof.
  intros db.
  destruct (larger_pattern_rejected db 1) as (H1 & _ & H3);
    [vm_compute; lia|].
  split; assumption.
Defined.

Lemma enumeration_sound_witness :
  let r := {| subgraph_id := 2; nodes := [3; 1]; edges := [] |} in
  In r (get_induced_subgraphs path_table) /\
  isomorphic (nx.subgraph (_get_graph 0 path_table) (vertex_set r))
    (_get_graph 2 path_table).
Proof.
  intros r.
  assert (Hr : In r (get_induced_subgraphs path_table))
    by (vm_compute; auto).
  split; [exact Hr|]. apply (enumeration_sound path_table r Hr).
Defined.


(** ** Completeness and first-wins attribution *)

Lemma filter_none {A B : Type} `{EqDecision B} (f : A -> B) (k : B)
    (l : list A) :
  ~ In k (map f l) -> List.filter (fun x => bool_decide (f x = k)) l = [].
Proof.
  induction l as [|a l IH]; simpl; intros Hk; [reflexivity|].
  rewrite bool_decide_eq_false_2 by tauto. apply IH. tauto.
Qed.

Lemma filter_one {A B : Type} `{EqDecision B} (f : A -> B) (l : list A)
    (r : A) :
  List.NoDup (map f l) -> In r l ->
  List.filter (fun x => bool_decide (f x = f r)) l = [r].
Proof.
  induction l as [|a l IH]; simpl; intros ND Hr; [destruct Hr|].
  inversion ND as [|? ? Ha ND']; subst. destruct Hr as [->|Hr].
  - rewrite bool_decide_eq_true_2 by reflexivity. f_equal.
    now apply filter_none.
  - rewrite bool_decide_eq_false_2; [now apply IH|].
    intros E. apply Ha. rewrite E. now apply in_map.
Qed.

Lemma same_position {A : Type} (i1 i2 j1 j2 : list A) (a b : A) :
  i1 ++ a :: i2 = j1 ++ b :: j2 -> In b i1 \/ In a j1 \/ a = b.
Proof.
  intros E. apply app_eq_app in E. destruct E as (l & [[E1 E2]|[E1 E2]]).
  - destruct l as [|x l]; simpl in E2.
    + injection E2 as -> _. auto.
    + injection E2 as -> _. left. rewrite E1. apply in_app_iff.
      right. now left.
  - destruct l as [|x l]; simpl in E2.
    + injection E2 as -> _. auto.
    + injection E2 as -> _. right. left. rewrite E1. apply in_app_iff.
      right. now left.
Qed.

(** The record of a vertex subset some match has: there is exactly one, and
    it is the record of the first match with that key set. *)
Lemma record_of_subset (db : database) (id : Z) (gm : isoalg.mapping) :
  In (id, gm) (matches db) ->
  exists r l1 id0 gm0 l2,
    List.filter (fun r' => bool_decide (vertex_set r' = key_set gm))
      (get_induced_subgraphs db) = [r] /\
    matches db = l1 ++ (id0, gm0) :: l2 /\
    (forall x, In x l1 -> key_set (snd x) <> key_set gm) /\
    key_set gm0 = key_set gm /\
    r = record_of (_get_graph 0 db) id0 gm0.
Proof.
  intros Hin. rewrite get_induced_subgraphs_aggregate.
  destruct (aggregate_spec (_get_graph 0 db) (matches db)) as (I1 & I2 & I3 & I4).
  assert (Hk : key_set gm ∈ fst (aggregate (_get_graph 0 db) (matches db) (∅, [])))
    by (apply I1; now exists (id, gm)).
  apply I2 in Hk. destruct Hk as (r & Hr & Ev).
  destruct (I4 r Hr) as (l1 & [id0 gm0] & l2 & E & Hl1 & Er). simpl in Hl1, Er.
  assert (Ek : key_set gm0 = key_set gm).
  { rewrite <- Ev, Er. symmetry. apply vertex_set_record_of. }
  exists r, l1, id0, gm0, l2. split; [|split; [|split; [|split]]];
    try assumption.
  - rewrite <- Ev. now apply filter_one.
  - intros x Hx. rewrite <- Ek. now apply Hl1.
Qed.

(** C2: a vertex subset of the host whose induced subgraph is isomorphic to
    a graph of I has exactly one record in the output, and that record is
    attributed to the first id in I, in table order, whose graph is
    isomorphic to the induced subgraph. *)
Theorem enumeration_complete (db : database) (S : gset Z) (id : Z) :
  In id (isos db) ->
  subset_of S (_get_graph 0 db) ->
  isomorphic (nx.subgraph (_get_graph 0 db) S) (_get_graph id db) ->
  exists r i1 i2,
    List.filter (fun r' => bool_decide (vertex_set r' = S))
      (get_induced_subgraphs db) = [r] /\
    isos db = i1 ++ subgraph_id r :: i2 /\
    isomorphic (nx.subgraph (_get_graph 0 db) S)
      (_get_graph (subgraph_id r) db) /\
    (forall id', In id' i1 ->
       ~ isomorphic (nx.subgraph (_get_graph 0 db) S) (_get_graph id' db)).
Proof.
  intros Hid Sub Iso.
  pose proof (get_graph_NoDup 0 db) as NDH.
  destruct (matcher_complete _ _ S NDH (get_graph_NoDup id db) Sub Iso)
    as (gm & Hgm & Ek).
  destruct (record_of_subset db id gm (proj2 (in_matches db id gm) (conj Hid Hgm)))
    as (r & l1 & id0 & gm0 & l2 & Hf & E & Hl1 & Ek0 & ->).
  rewrite Ek in Hf, Hl1, Ek0.
  destruct (matches_split db l1 l2 id0 gm0 E) as (i1 & i2 & Ei & Hgm0 & Hpre).
  exists (record_of (_get_graph 0 db) id0 gm0), i1, i2. simpl.
  split; [assumption|]. split; [assumption|]. split.
  - destruct (matcher_sound _ _ gm0 (get_graph_NoDup id0 db) Hgm0) as [_ I].
    rewrite Ek0 in I. now exists (image gm0).
  - intros id' Hid' Iso'.
    destruct (matcher_complete _ _ S NDH (get_graph_NoDup id' db) Sub Iso')
      as (gm' & Hgm' & Ek').
    apply (Hl1 (id', gm')); [|assumption]. now apply Hpre.
Qed.

(** C4: the vertex subsets of the returned records are pairwise distinct; a
    match whose key set has been seen, that is, is the key set of an
    earlier match of the sequence, leaves the state of the loop as it is,
    and the records accepted so far stay at the head of the output; when
    graphs of I have matches with the same key set, the one record of that
    subset is attributed to the first of them in table order. *)
Theorem first_match_wins (db : database) :
  let g := _get_graph 0 db in
  let out := get_induced_subgraphs db in
  List.NoDup (map vertex_set out) /\
  (forall l1 id gm l2,
     matches db = l1 ++ (id, gm) :: l2 ->
     let st := aggregate g l1 (∅, []) in
     (key_set gm ∈ fst st <-> exists m, In m l1 /\ key_set (snd m) = key_set gm) /\
     (key_set gm ∈ fst st -> visit g id st gm = st) /\
     (exists more, out = snd st ++ more)) /\
  (forall i1 id i2 gm,
     isos db = i1 ++ id :: i2 ->
     In gm (isoalg.subgraph_isomorphisms_iter g (_get_graph id db)) ->
     (forall id' gm',
        In id' i1 ->
        In gm' (isoalg.subgraph_isomorphisms_iter g (_get_graph id' db)) ->
        key_set gm' <> key_set gm) ->
     exists r,
       List.filter (fun r' => bool_decide (vertex_set r' = key_set gm)) out = [r] /\
       subgraph_id r = id).
Proof.
  intros g out. split; [|split].
  - unfold out. rewrite get_induced_subgraphs_aggregate.
    apply (aggregate_spec (_get_graph 0 db) (matches db)).
  - intros l1 id gm l2 E st. split; [|split].
    + apply (aggregate_spec g l1).
    + intros Hk. destruct st as [inds o]. rewrite visit_unfold.
      now rewrite bool_decide_eq_true_2.
    + unfold out. rewrite get_induced_subgraphs_aggregate, E, aggregate_app.
      apply aggregate_extends.
  - intros i1 id i2 gm Ei Hgm Hfirst.
    assert (Hin : In (id, gm) (matches db)).
    { apply in_matches. split; [|assumption]. rewrite Ei. apply in_app_iff.
      right. now left. }
    destruct (record_of_subset db id gm Hin)
      as (r & l1 & id0 & gm0 & l2 & Hf & E & Hl1 & Ek0 & ->).
    exists (record_of (_get_graph 0 db) id0 gm0). split; [assumption|]. simpl.
    destruct (matches_split db l1 l2 id0 gm0 E) as (j1 & j2 & Ej & Hgm0 & Hpre).
    rewrite Ei in Ej. destruct (same_position _ _ _ _ _ _ Ej) as [Hc|[Hc|Hc]].
    + exfalso. exact (Hfirst id0 gm0 Hc Hgm0 Ek0).
    + exfalso. exact (Hl1 (id, gm) (Hpre id gm Hc Hgm) eq_refl).
    + now symmetry.
Qed.

Lemma enumeration_complete_witness :
  exists r,
    List.filter (fun r' => bool_decide (vertex_set r' = {[1; 3]}))
      (get_induced_subgraphs path_table) = [r] /\
    subgraph_id r = 2.
Proof.
  assert (Hid : In 2 (isos path_table)) by (vm_compute; auto).
  assert (Sub : subset_of {[1; 3]} (_get_graph 0 path_table)).
  { intros u Hu. apply elem_of_union in Hu.
    destruct Hu as [Hu|Hu]; apply elem_of_singleton in Hu; subst u;
      vm_compute; auto. }
  assert (Iso : isomorphic (nx.subgraph (_get_graph 0 path_table) {[1; 3]})
                  (_get_graph 2 path_table)).
  { exists (fun u => if u =? 1 then 7 else 8).
    assert (E1 : nx.nodes (nx.subgraph (_get_graph 0 path_table) {[1; 3]})
                 = [1; 3]) by (vm_compute; reflexivity).
    assert (E2 : nx.nodes (_get_graph 2 path_table) = [7; 8])
      by (vm_compute; reflexivity).
    unfold isomorphism. rewrite E1, E2. split; [|split; [|split]].
    - intros u [<-|[<-|[]]]; simpl; auto.
    - intros u v [<-|[<-|[]]] [<-|[<-|[]]]; simpl; intros; lia.
    - intros p [<-|[<-|[]]]; [exists 1|exists 3]; simpl; auto.
    - intros u v [<-|[<-|[]]] [<-|[<-|[]]] Hne; try congruence;
        vm_compute; reflexivity. }
  destruct (enumeration_complete path_table {[1; 3]} 2 Hid Sub Iso)
    as (r & i1 & i2 & Hf & Ei & _ & Hfirst).
  exists r. split; [exact Hf|].
  assert (Hr : In r (get_induced_subgraphs path_table)).
  { assert (H : In r [r]) by now left. rewrite <- Hf in H.
    now apply filter_In in H. }
  vm_compute in Hr. destruct Hr as [<-|[<-|[<-|[]]]]; try reflexivity;
    vm_compute in Hf; discriminate.
Defined.

Lemma first_match_wins_witness :
  List.NoDup (map vertex_set (get_induced_subgraphs path_table)) /\
  exists r,
    List.filter (fun r' => bool_decide (vertex_set r' = key_set [(1, 7); (2, 8)]))
      (get_induced_subgraphs path_table) = [r] /\
    subgraph_id r = 1.
Proof.
  destruct (first_match_wins path_table) as (H1 & _ & H3).
  split; [exact H1|].
  apply (H3 [] 1 [2] [(1, 7); (2, 8)]).
  - reflexivity.
  - vm_compute. auto.
  - intros id' gm' [].
Defined.

(** ** Empty inputs *)

Lemma no_matches_no_records (db : database) :
  matches db = [] -> get_induced_subgraphs db = [].
Proof. intros E. now rewrite get_induced_subgraphs_aggregate, E. Qed.

Lemma empty_host_record (db : database) (r : induced_subgraph) :
  nx.number_of_nodes (_get_graph 0 db) = 0%nat ->
  In r (get_induced_subgraphs db) ->
  nodes r = [] /\ edges r = [] /\
  nx.number_of_nodes (_get_graph (subgraph_id r) db) = 0%nat.
Proof.
  intros H0 Hr. destruct (record_match db r Hr) as (gm & _ & Hgm & E).
  pose proof (get_graph_NoDup (subgraph_id r) db) as NDP.
  pose proof (iter_sound _ _ gm NDP Hgm) as IM.
  pose proof (record_size _ _ (subgraph_id r) gm NDP IM) as Hsize.
  rewrite <- E in Hsize.
  assert (Hgm0 : gm = []).
  { destruct IM as (_ & _ & H3 & _). destruct gm as [|[c q] gm]; [reflexivity|].
    specialize (H3 c (or_introl eq_refl)). unfold nx.number_of_nodes in H0.
    destruct (nx.nodes (_get_graph 0 db)); [destruct H3|discriminate]. }
  subst gm. rewrite E in *. simpl in *. unfold key_set in *. simpl in *.
  rewrite elements_empty in *. split; [reflexivity|]. split; [|now symmetry].
  destruct (List.filter _ _) as [|e l] eqn:F; [reflexivity|].
  assert (He : In e (e :: l)) by now left.
  rewrite <- F in He. apply filter_In in He. destruct He as [_ He].
  apply andb_prop in He. destruct He as [He _].
  apply bool_decide_eq_true in He. set_solver.
Qed.

(** C5, as the code has it: with no graph in I the output is empty; with a
    host without vertices every record has an empty vertex subset and an
    empty edge list and is attributed to a graph of I without vertices, so
    the output is empty when every graph of I has a vertex. *)
Theorem empty_inputs (db : database) :
  (isos db = [] -> get_induced_subgraphs db = []) /\
  (nx.number_of_nodes (_get_graph 0 db) = 0%nat ->
   (forall r, In r (get_induced_subgraphs db) ->
      nodes r = [] /\ edges r = [] /\
      In (subgraph_id r) (isos db) /\
      nx.number_of_nodes (_get_graph (subgraph_id r) db) = 0%nat) /\
   ((forall id, In id (isos db) ->
       nx.number_of_nodes (_get_graph id db) <> 0%nat) ->
    get_induced_subgraphs db = [])).
Proof.
  split.
  - intros E. apply no_matches_no_records. unfold matches. now rewrite E.
  - intros H0.
    assert (Hrec : forall r, In r (get_induced_subgraphs db) ->
              nodes r = [] /\ edges r = [] /\
              In (subgraph_id r) (isos db) /\
              nx.number_of_nodes (_get_graph (subgraph_id r) db) = 0%nat).
    { intros r Hr. destruct (empty_host_record db r H0 Hr) as (H1 & H2 & H3).
      destruct (record_match db r Hr) as (gm & Hid & _).
      repeat split; assumption. }
    split; [exact Hrec|]. intros Hne.
    destruct (get_induced_subgraphs db) as [|r l]; [reflexivity|].
    exfalso. destruct (Hrec r (or_introl eq_refl)) as (_ & _ & Hid & Hz).
    exact (Hne _ Hid Hz).
Qed.

Lemma empty_inputs_witness :
  get_induced_subgraphs
    [NodeDoc 1 7 0 0; NodeDoc 1 8 0 0; EdgeDoc 1 7 8; IsoDoc 1] = [].
Proof.
  apply (empty_inputs
           [NodeDoc 1 7 0 0; NodeDoc 1 8 0 0; EdgeDoc 1 7 8; IsoDoc 1]).
  - reflexivity.
  - intros id [<-|[]]. vm_compute. discriminate.
Defined.

(** C5 as stated fails: the host of [empty_pattern_table] has no vertex,
    and the output is not empty. *)
Lemma empty_host_nonempty_output :
  nx.number_of_nodes (_get_graph 0 empty_pattern_table) = 0%nat /\
  get_induced_subgraphs empty_pattern_table
  = [{| subgraph_id := 1; nodes := []; edges := [] |}].
Proof. split; vm_compute; reflexivity. Qed.

(** ** No validation *)



(** * Further properties of the module *)

(** ** Lists and searches *)

Section Filters.

Context {A : Type}.
Implicit Types (c : A -> bool) (l : list A).

Lemma filter_all c l : (forall a, In a l -> c a = true) -> List.filter c l = l.
Proof.
  induction l as [|a l IH]; simpl; intros Hc; [reflexivity|].
  rewrite (Hc a (or_introl eq_refl)). f_equal. apply IH. auto.
Qed.

Lemma filter_nothing c l :
  (forall a, In a l -> c a = false) -> List.filter c l = [].
Proof.
  induction l as [|a l IH]; simpl; intros Hc; [reflexivity|].
  rewrite (Hc a (or_introl eq_refl)). apply IH. auto.
Qed.

Lemma flat_map_filter {B : Type} (h : A -> list B) c l :
  (forall a, c a = false -> h a = []) ->
  flat_map h (List.filter c l) = flat_map h l.
Proof.
  intros Hc. induction l as [|a l IH]; simpl; [reflexivity|].
  destruct (c a) eqn:E; simpl; rewrite IH; [reflexivity|].
  now rewrite (Hc a E).
Qed.

Lemma flat_map_map {B C : Type} (h : B -> list C) (f : A -> B) l :
  flat_map h (map f l) = flat_map (fun a => h (f a)) l.
Proof.
  induction l as [|a l IH]; simpl; [reflexivity|]. now rewrite IH.
Qed.

Lemma flat_map_none {B : Type} (h : A -> list B) l :
  (forall a, In a l -> h a = []) -> flat_map h l = [].
Proof.
  induction l as [|a l IH]; simpl; intros Hh; [reflexivity|].
  rewrite (Hh a (or_introl eq_refl)). apply IH. auto.
Qed.

Lemma count_map {B : Type} (c : B -> bool) (f : A -> B) l :
  length (List.filter c (map f l)) = length (List.filter (fun a => c (f a)) l).
Proof.
  induction l as [|a l IH]; simpl; [reflexivity|].
  destruct (c (f a)); simpl; now rewrite IH.
Qed.

End Filters.

Lemma get_graph_build (g : Z) (db : database) :
  _get_graph g db = build (flat_map (doc_nodes g) db) (flat_map (doc_edges g) db).
Proof.
  unfold _get_graph, build, search. f_equal; [|f_equal].
  - induction db as [|d db IH]; simpl; [reflexivity|].
    destruct d; simpl; try exact IH.
    destruct (g_id =? g); simpl; now rewrite IH.
  - induction db as [|d db IH]; simpl; [reflexivity|].
    destruct d; simpl; try exact IH.
    destruct (g_id =? g); simpl; now rewrite IH.
Qed.

Lemma isos_flat (db : database) : isos db = flat_map doc_isos db.
Proof.
  unfold isos, search. induction db as [|d db IH]; simpl; [reflexivity|].
  destruct d; simpl; try exact IH. now rewrite IH.
Qed.

(** The query reads the table only through the graphs and through I. *)
Lemma query_ext (db db' : database) :
  (forall g, _get_graph g db' = _get_graph g db) -> isos db' = isos db ->
  get_induced_subgraphs db' = get_induced_subgraphs db.
Proof.
  intros Hg Hi. unfold get_induced_subgraphs. rewrite Hi, (Hg 0).
  f_equal. f_equal. apply map_ext. intros id. now rewrite Hg.
Qed.

(** ** Edges: order of the endpoints, adding and removing *)

(** An edge is added and removed whatever the order its endpoints are
    given in. *)
Theorem edge_calls_symmetric (g u v : Z) (db : database) :
  add_edge g u v db = add_edge g v u db /\
  remove_edge g u v db = remove_edge g v u db.
Proof.
  unfold add_edge, remove_edge.
  destruct (u =? v) eqn:E1, (v =? u) eqn:E2, (v <? u) eqn:E3, (u <? v) eqn:E4;
    zbool; try lia; split; reflexivity.
Qed.

Lemma remove_edge_swap (g u v : Z) (db : database) :
  remove_edge g u v db = remove_edge g v u db.
Proof.
  unfold remove_edge. rewrite (Z.eqb_sym v u).
  destruct (u =? v) eqn:E1; [reflexivity|]. zbool.
  destruct (v <? u) eqn:E3, (u <? v) eqn:E4; zbool; try lia; reflexivity.
Qed.

(** Removing the edge that [add_edge] has just stored gives the table back,
    in whichever order the endpoints are named. *)
Theorem add_then_remove_edge (g u v : Z) (db db' : database) :
  add_edge g u v db = (db', true) ->
  remove_edge g u v db' = (db, true) /\ remove_edge g v u db' = (db, true).
Proof.
  intros Ha.
  assert (Hr : remove_edge g u v db' = (db, true)).
  { unfold add_edge in Ha. unfold remove_edge.
    destruct (u =? v); [discriminate|].
    destruct (if v <? u then (v, u) else (u, v)) as [a b].
    destruct (negb _); [discriminate|].
    destruct (length (search (Q.edge_of g a b) db) =? 0)%nat eqn:C0;
      [|discriminate].
    injection Ha as <-. apply Nat.eqb_eq in C0.
    pose proof (proj1 (count_zero _ _) C0) as Hz.
    unfold remove, insert. rewrite !List.filter_app.
    rewrite (filter_nothing (Q.edge_of g a b) db Hz).
    rewrite (filter_all (fun d => negb (Q.edge_of g a b d)) db)
      by (intros d Hd; now rewrite (Hz d Hd)).
    simpl. rewrite !Z.eqb_refl. simpl. now rewrite app_nil_r. }
  split; [exact Hr|]. now rewrite <- remove_edge_swap.
Qed.

Lemma add_then_remove_edge_witness :
  remove_edge 0 2 1
    [NodeDoc 0 1 0 0; NodeDoc 0 2 0 0; EdgeDoc 0 1 2]
  = ([NodeDoc 0 1 0 0; NodeDoc 0 2 0 0], true).
Proof.
  apply (add_then_remove_edge 0 1 2 [NodeDoc 0 1 0 0; NodeDoc 0 2 0 0]).
  reflexivity.
Defined.

(** ** Nodes: adding and removing *)

Lemma not_stored_isolated (db : database) (g u : Z) :
  endpoints_stored db -> ~ stored_node db g u -> isolated db g u.
Proof.
  intros P Hn d Hd. destruct d as [| g' a b | |]; simpl; try reflexivity.
  destruct (g' =? g) eqn:Eg; [|reflexivity]. simpl.
  destruct (a =? u) eqn:Ea; zbool; subst.
  - exfalso. apply Hn. now destruct (P _ _ _ Hd).
  - destruct (b =? u) eqn:Eb; [|reflexivity]. zbool. subst.
    exfalso. apply Hn. now destruct (P _ _ _ Hd).
Qed.

(** Removing the node that [add_node] has just stored gives the table back,
    when no stored edge has an endpoint that is not a stored node. *)
Theorem add_then_remove_node (g u x y : Z) (db db' : database) :
  endpoints_stored db ->
  add_node g u x y db = (db', true) ->
  remove_node g u db' = (db, true).
Proof.
  intros P Ha. unfold add_node in Ha.
  destruct (length (search (Q.node_of g u) db) =? 0)%nat eqn:C0; [|discriminate].
  injection Ha as <-. apply Nat.eqb_eq in C0.
  pose proof (proj1 (count_zero _ _) C0) as Hz.
  assert (Hiso : isolated db g u).
  { apply not_stored_isolated; [assumption|].
    intros Hs. apply stored_node_count in Hs. lia. }
  unfold remove_node, remove, insert. rewrite !List.filter_app.
  rewrite (filter_nothing (Q.node_of g u) db Hz).
  rewrite (filter_all (fun d => negb (Q.node_of g u d)) db)
    by (intros d Hd; now rewrite (Hz d Hd)).
  simpl. rewrite !Z.eqb_refl. simpl. rewrite app_nil_r.
  f_equal. apply filter_all. intros d Hd. now rewrite (Hiso d Hd).
Qed.

Lemma add_then_remove_node_witness :
  remove_node 0 3
    [NodeDoc 0 1 0 0; NodeDoc 0 2 0 0; EdgeDoc 0 1 2; NodeDoc 0 3 5 5]
  = ([NodeDoc 0 1 0 0; NodeDoc 0 2 0 0; EdgeDoc 0 1 2], true).
Proof.
  apply (add_then_remove_node 0 3 5 5
           [NodeDoc 0 1 0 0; NodeDoc 0 2 0 0; EdgeDoc 0 1 2]).
  - intros g u v [H|[H|[H|[]]]]; try discriminate. injection H as <- <- <-.
    split; eexists _, _; simpl; eauto.
  - reflexivity.
Defined.

(** [remove_node] answers [True] exactly when the node is stored; then the
    node is gone together with every edge of the graph at it, and the
    documents of the other graphs are those of before.  Otherwise the table
    is left as it is. *)
Theorem remove_node_effect (g u : Z) (db : database) :
  (snd (remove_node g u db) = true <-> stored_node db g u) /\
  (~ stored_node db g u -> remove_node g u db = (db, false)) /\
  (stored_node db g u ->
   ~ stored_node (fst (remove_node g u db)) g u /\
   isolated (fst (remove_node g u db)) g u /\
   (forall d, In d (fst (remove_node g u db)) -> In d db) /\
   (forall d, doc_g_id d <> g -> In d db -> In d (fst (remove_node g u db)))).
Proof.
  unfold remove_node, remove.
  destruct (0 <? length (List.filter (Q.node_of g u) db))%nat eqn:C;
    cbn [fst snd].
  - apply Nat.ltb_lt in C. apply stored_node_count in C.
    split; [tauto|]. split; [tauto|]. intros _. split; [|split; [|split]].
    + intros (x & y & H). apply filter_In in H. destruct H as [H _].
      apply filter_In in H. destruct H as [_ H]. simpl in H.
      now rewrite !Z.eqb_refl in H.
    + intros d Hd. apply filter_In in Hd. destruct Hd as [_ Hd].
      now destruct (Q.edge_at g u d).
    + intros d Hd. apply filter_In in Hd. destruct Hd as [Hd _].
      now apply filter_In in Hd.
    + intros d Hg Hd. apply filter_In. split; [apply filter_In; split|];
        try assumption; destruct d; simpl in *; try reflexivity;
        destruct (g_id =? g) eqn:E; zbool; try reflexivity; congruence.
  - apply Nat.ltb_ge in C.
    assert (Hn : ~ stored_node db g u).
    { intros Hs. apply stored_node_count in Hs. unfold search in Hs. lia. }
    split; [split; [discriminate|tauto]|]. split; [|tauto]. intros _.
    f_equal. apply filter_all. intros d Hd.
    assert (C0 : length (List.filter (Q.node_of g u) db) = 0%nat) by lia.
    now rewrite (proj1 (count_zero _ _) C0 d Hd).
Qed.

Lemma remove_node_effect_witness :
  let db := [NodeDoc 0 1 0 0; NodeDoc 0 2 0 0; EdgeDoc 0 1 2; NodeDoc 1 1 0 0] in
  fst (remove_node 0 1 db) = [NodeDoc 0 2 0 0; NodeDoc 1 1 0 0] /\
  isolated (fst (remove_node 0 1 db)) 0 1.
Proof.
  intros db. split; [reflexivity|].
  apply (remove_node_effect 0 1 db). eexists _, _. simpl. eauto.
Defined.

(** ** What a change of the table does to the graphs, to I and to the views *)

Lemma filter_filter_keep {A : Type} (c p : A -> bool) (l : list A) :
  (forall a, c a = true -> p a = true) ->
  List.filter c (List.filter p l) = List.filter c l.
Proof.
  intros Hcp. induction l as [|a l IH]; simpl; [reflexivity|].
  destruct (p a) eqn:P; simpl; rewrite IH; [reflexivity|].
  destruct (c a) eqn:C; [|reflexivity]. rewrite (Hcp a C) in P. discriminate.
Qed.

Lemma filter_filter_none {A : Type} (c p : A -> bool) (l : list A) :
  (forall a, c a = true -> p a = false) ->
  List.filter c (List.filter p l) = [].
Proof.
  intros Hcp. apply filter_nothing. intros a Ha. apply filter_In in Ha.
  destruct Ha as [_ P]. destruct (c a) eqn:C; [|reflexivity].
  rewrite (Hcp a C) in P. discriminate.
Qed.

Lemma get_graph_dict_flat (g : Z) (db : database) :
  get_graph_dict g db
  = {| Dict.nodes := flat_map (doc_placed g) db;
       Dict.edges := flat_map (doc_edges g) db;
       Dict.name := first_name (search (Q.properties_of g) db);
       Dict.iso := negb (length (search (Q.iso_of g) db) =? 0)%nat |}.
Proof.
  unfold get_graph_dict, search. f_equal.
  - induction db as [|d db IH]; simpl; [reflexivity|].
    destruct d; simpl; try exact IH.
    destruct (g_id =? g); simpl; now rewrite IH.
  - induction db as [|d db IH]; simpl; [reflexivity|].
    destruct d; simpl; try exact IH.
    destruct (g_id =? g); simpl; now rewrite IH.
Qed.

(** Two tables with the same contributions give the same graphs. *)
Lemma get_graph_ext (g : Z) (db db' : database) :
  flat_map (doc_nodes g) db' = flat_map (doc_nodes g) db ->
  flat_map (doc_edges g) db' = flat_map (doc_edges g) db ->
  _get_graph g db' = _get_graph g db.
Proof. intros E1 E2. now rewrite !get_graph_build, E1, E2. Qed.

Lemma set_name_cases (g : Z) (n : string) (db : database) :
  (search (Q.properties_of g) db = [] /\
   set_name g n db = db ++ [PropertiesDoc g n]) \/
  (search (Q.properties_of g) db <> [] /\
   set_name g n db
   = map (fun d => if Q.properties_of g d then PropertiesDoc g n else d) db).
Proof.
  unfold set_name, upsert, update, search, insert.
  destruct (List.filter (Q.properties_of g) db); [left|right]; split;
    auto; discriminate.
Qed.

(** Naming a graph touches its 'properties' documents only. *)
Lemma set_name_frame {B : Type} (h : document -> list B) (g : Z) (n : string)
    (db : database) :
  (forall g' n', h (PropertiesDoc g' n') = []) ->
  flat_map h (set_name g n db) = flat_map h db.
Proof.
  intros Hh. destruct (set_name_cases g n db) as [[_ ->]|[_ ->]].
  - rewrite flat_map_app. simpl. rewrite Hh. now rewrite !app_nil_r.
  - rewrite flat_map_map. apply flat_map_ext. intros d.
    destruct d; simpl; try reflexivity.
    destruct (g_id =? g); [|reflexivity]. now rewrite !Hh.
Qed.

Lemma filter_map_fixed {A : Type} (c : A -> bool) (f : A -> A) (l : list A) :
  (forall a, c (f a) = c a) -> (forall a, c a = true -> f a = a) ->
  List.filter c (map f l) = List.filter c l.
Proof.
  intros H1 H2. induction l as [|a l IH]; simpl; [reflexivity|].
  rewrite H1, IH. destruct (c a) eqn:C; [|reflexivity]. now rewrite (H2 a C).
Qed.

Lemma set_name_search (c : document -> bool) (g : Z) (n : string)
    (db : database) :
  (forall g' n', c (PropertiesDoc g' n') = false) ->
  search c (set_name g n db) = search c db.
Proof.
  intros Hc. unfold search. destruct (set_name_cases g n db) as [[_ ->]|[_ ->]].
  - rewrite List.filter_app. simpl. rewrite Hc. now rewrite app_nil_r.
  - apply filter_map_fixed.
    + intros d. destruct d; simpl; try reflexivity.
      destruct (g_id =? g); [|reflexivity]. now rewrite !Hc.
    + intros d Hd. destruct d; simpl; try reflexivity.
      now rewrite Hc in Hd.
Qed.

Lemma set_name_first (g : Z) (n : string) (db : database) :
  first_name (search (Q.properties_of g) (set_name g n db)) = n.
Proof.
  destruct (set_name_cases g n db) as [[E ->]|[E ->]].
  - unfold search in *. rewrite List.filter_app, E. simpl.
    now rewrite Z.eqb_refl.
  - unfold search in *. induction db as [|d db IH]; [contradiction|].
    destruct d; try (apply IH; exact E).
    simpl in E |- *. destruct (g_id =? g) eqn:Eg; simpl.
    + now rewrite Z.eqb_refl.
    + rewrite Eg. apply IH. exact E.
Qed.

Lemma set_name_other (g g' : Z) (n : string) (db : database) :
  g' <> g ->
  search (Q.properties_of g') (set_name g n db) = search (Q.properties_of g') db.
Proof.
  intros Hne. unfold search. destruct (set_name_cases g n db) as [[_ ->]|[_ ->]].
  - rewrite List.filter_app. simpl.
    replace (g =? g') with false by (symmetry; apply Z.eqb_neq; congruence).
    now rewrite app_nil_r.
  - apply filter_map_fixed.
    + intros d. destruct d; simpl; try reflexivity.
      destruct (g_id =? g) eqn:Eg; simpl; [|reflexivity]. zbool. now subst.
    + intros d Hd. destruct d; simpl in *; try reflexivity.
      destruct (g_id =? g) eqn:Eg; [|reflexivity]. zbool. congruence.
Qed.

Lemma set_name_graphs (g : Z) (n : string) (db : database) :
  (forall g', _get_graph g' (set_name g n db) = _get_graph g' db) /\
  isos (set_name g n db) = isos db.
Proof.
  split.
  - intros g'. apply get_graph_ext; now apply set_name_frame.
  - rewrite !isos_flat. now apply set_name_frame.
Qed.

(** [save_main_name] does nothing without a name; with one, the name is what
    [get_graph_dict] then shows for graph 0, while the names of the other
    graphs, every graph, I and the answer of the query stay as they were. *)
Theorem save_main_name_effect (db : database) :
  save_main_name None db = (db, false) /\
  (forall n,
     let db' := fst (save_main_name (Some n) db) in
     snd (save_main_name (Some n) db) = true /\
     Dict.name (get_graph_dict 0 db') = n /\
     (forall g, g <> 0 ->
        Dict.name (get_graph_dict g db') = Dict.name (get_graph_dict g db)) /\
     (forall g, _get_graph g db' = _get_graph g db) /\
     isos db' = isos db /\
     get_induced_subgraphs db' = get_induced_subgraphs db).
Proof.
  split; [reflexivity|]. intros n db'.
  change db' with (set_name 0 n db).
  destruct (set_name_graphs 0 n db) as [Hg Hi].
  split; [reflexivity|]. split; [|split; [|split; [|split]]].
  - rewrite get_graph_dict_flat. simpl. apply set_name_first.
  - intros g Hne. rewrite !get_graph_dict_flat. simpl.
    now rewrite set_name_other.
  - exact Hg.
  - exact Hi.
  - now apply query_ext.
Qed.

(** [move_node] answers [True] exactly when the node is stored; it rewrites
    the coordinates of that node in what [get_graph_dict] shows and nothing
    else: every graph, I and the answer of the query stay as they were. *)
Theorem move_node_effect (g u x y : Z) (db : database) :
  let db' := fst (move_node g u x y db) in
  (snd (move_node g u x y db) = true <-> stored_node db g u) /\
  Dict.nodes (get_graph_dict g db')
  = map (placed_at u x y) (Dict.nodes (get_graph_dict g db)) /\
  (forall g', g' <> g ->
     Dict.nodes (get_graph_dict g' db') = Dict.nodes (get_graph_dict g' db)) /\
  (forall g', _get_graph g' db' = _get_graph g' db) /\
  isos db' = isos db /\
  get_induced_subgraphs db' = get_induced_subgraphs db.
Proof.
  unfold move_node, update. cbn [fst snd].
  set (f := fun d => if Q.node_of g u d
                     then match d with
                          | NodeDoc g0 u0 _ _ => NodeDoc g0 u0 x y
                          | _ => d
                          end
                     else d).
  assert (Hn : forall g' d, doc_nodes g' (f d) = doc_nodes g' d).
  { intros g' d. unfold f. destruct d; simpl; try reflexivity.
    now destruct ((g_id =? g) && (u_id =? u)). }
  assert (He : forall g' d, doc_edges g' (f d) = doc_edges g' d).
  { intros g' d. unfold f. destruct d; simpl; try reflexivity.
    now destruct ((g_id =? g) && (u_id =? u)). }
  assert (Hi : forall d, doc_isos (f d) = doc_isos d).
  { intros d. unfold f. destruct d; simpl; try reflexivity.
    now destruct ((g_id =? g) && (u_id =? u)). }
  assert (Hg : forall g', _get_graph g' (map f db) = _get_graph g' db).
  { intros g'. apply get_graph_ext; rewrite flat_map_map;
      apply flat_map_ext; intros d; auto. }
  assert (HI : isos (map f db) = isos db).
  { rewrite !isos_flat, flat_map_map. apply flat_map_ext. exact Hi. }
  split; [|split; [|split; [|split; [|split]]]]; try assumption.
  - rewrite Nat.ltb_lt. symmetry. apply stored_node_count.
  - rewrite !get_graph_dict_flat. simpl. rewrite flat_map_map.
    clear Hg HI. induction db as [|d db IH]; simpl; [reflexivity|].
    rewrite map_app, IH. f_equal. unfold f.
    destruct d; simpl; try reflexivity.
    destruct (g_id =? g) eqn:Eg, (u_id =? u) eqn:Eu; simpl;
      rewrite ?Eg; simpl; unfold placed_at; simpl; rewrite ?Eu;
      try reflexivity.
    zbool. now subst.
  - intros g' Hne. rewrite !get_graph_dict_flat. simpl. rewrite flat_map_map.
    apply flat_map_ext. intros d. unfold f. destruct d; simpl; try reflexivity.
    destruct (g_id =? g) eqn:Eg; simpl; [|reflexivity].
    destruct (u_id =? u); simpl; [|reflexivity].
    zbool. subst.
    replace (g =? g') with false by (symmetry; apply Z.eqb_neq; congruence).
    reflexivity.
  - now apply query_ext.
Qed.

Lemma move_node_effect_witness :
  Dict.nodes (get_graph_dict 0
    (fst (move_node 0 2 7 9 [NodeDoc 0 1 0 0; NodeDoc 0 2 3 4])))
  = [(1, 0, 0); (2, 7, 9)].
Proof.
  rewrite (proj1 (proj2 (move_node_effect 0 2 7 9
                           [NodeDoc 0 1 0 0; NodeDoc 0 2 3 4]))).
  reflexivity.
Defined.

Lemma save_main_name_effect_witness :
  Dict.name (get_graph_dict 0
    (fst (save_main_name (Some "K4")
            [PropertiesDoc 1 "P3"; PropertiesDoc 0 "old"]))) = "K4" /\
  Dict.name (get_graph_dict 1
    (fst (save_main_name (Some "K4")
            [PropertiesDoc 1 "P3"; PropertiesDoc 0 "old"]))) = "P3".
Proof.
  destruct (proj2 (save_main_name_effect
                     [PropertiesDoc 1 "P3"; PropertiesDoc 0 "old"]) "K4")
    as (_ & H1 & H2 & _).
  split; [exact H1|]. rewrite H2 by lia. reflexivity.
Defined.

(** ** Membership in I *)

Lemma remove_frame {B : Type} (h : document -> list B) (c : document -> bool)
    (db : database) :
  (forall d, c d = true -> h d = []) ->
  flat_map h (snd (remove c db)) = flat_map h db.
Proof.
  intros Hc. unfold remove. cbn [snd]. apply flat_map_filter.
  intros d Hd. apply Hc. now destruct (c d).
Qed.

Lemma iso_count (g : Z) (db : database) :
  (0 < length (search (Q.iso_of g) db))%nat <-> In g (isos db).
Proof.
  rewrite isos_flat, in_flat_map. split.
  - intros H. apply count_pos_inv in H. destruct H as (d & Hd & Hq).
    exists d. split; [assumption|]. destruct d; simpl in Hq; try discriminate.
    zbool. subst. now left.
  - intros (d & Hd & Hg). destruct d; simpl in Hg; try contradiction.
    destruct Hg as [->|[]]. apply (count_pos _ _ _ Hd). simpl. apply Z.eqb_refl.
Qed.

Lemma iso_flag (g : Z) (db : database) :
  Dict.iso (get_graph_dict g db) = true <-> In g (isos db).
Proof.
  rewrite <- iso_count. unfold get_graph_dict. simpl.
  rewrite negb_true_iff, Nat.eqb_neq. lia.
Qed.

(** [remove_iso] takes the graph out of I however often it has been added,
    keeps the other ids of I in their order, and changes no graph. *)
Theorem remove_iso_effect (g : Z) (db : database) :
  let db' := fst (remove_iso g db) in
  isos db' = List.filter (fun id => negb (id =? g)) (isos db) /\
  ~ In g (isos db') /\
  Dict.iso (get_graph_dict g db') = false /\
  (forall g', _get_graph g' db' = _get_graph g' db).
Proof.
  unfold remove_iso. cbn [fst].
  assert (Hi : isos (snd (remove (Q.iso_of g) db))
               = List.filter (fun id => negb (id =? g)) (isos db)).
  { rewrite !isos_flat. unfold remove. cbn [snd].
    induction db as [|d db IH]; simpl; [reflexivity|].
    destruct d; simpl; try exact IH.
    destruct (g_id =? g); simpl; now rewrite IH. }
  assert (Hn : ~ In g (isos (snd (remove (Q.iso_of g) db)))).
  { rewrite Hi. intros H. apply filter_In in H. destruct H as [_ H].
    now rewrite Z.eqb_refl in H. }
  split; [exact Hi|]. split; [exact Hn|]. split.
  - destruct (Dict.iso _) eqn:E; [|reflexivity]. now apply iso_flag in E.
  - intros g'. apply get_graph_ext; apply remove_frame;
      intros d Hd; now destruct d.
Qed.

(** [add_iso] appends the id to I without a test, and changes no graph. *)
Lemma add_iso_frame (g : Z) (db : database) :
  isos (fst (add_iso g db)) = isos db ++ [g] /\
  (forall g', _get_graph g' (fst (add_iso g db)) = _get_graph g' db).
Proof.
  unfold add_iso, insert. cbn [fst]. split.
  - rewrite !isos_flat, flat_map_app. reflexivity.
  - intros g'. apply get_graph_ext; rewrite flat_map_app; simpl;
      now rewrite app_nil_r.
Qed.

Lemma aggregate_seen (g : nx.Graph) (l : list (Z * isoalg.mapping))
    (st : gset (gset Z) * list induced_subgraph) :
  (forall m, In m l -> key_set (snd m) ∈ fst st) -> aggregate g l st = st.
Proof.
  revert st. induction l as [|m l IH]; intros [inds out] Hl; [reflexivity|].
  rewrite aggregate_cons, visit_unfold.
  rewrite bool_decide_eq_true_2 by (apply (Hl m); now left).
  apply IH. intros m' Hm'. apply Hl. now right.
Qed.

Lemma aggregate_ids (g : nx.Graph) (l : list (Z * isoalg.mapping))
    (st : gset (gset Z) * list induced_subgraph) (r : induced_subgraph) :
  In r (snd (aggregate g l st)) ->
  In r (snd st) \/ exists m, In m l /\ r = record_of g (fst m) (snd m).
Proof.
  revert st. induction l as [|m l IH]; intros [inds out] Hr; [now left|].
  rewrite aggregate_cons, visit_unfold in Hr.
  destruct (bool_decide (key_set (snd m) ∈ inds)).
  - destruct (IH _ Hr) as [H|(m' & Hm' & E)]; [now left|].
    right. exists m'. split; [now right|assumption].
  - destruct (IH _ Hr) as [H|(m' & Hm' & E)].
    + cbn [snd] in H. apply in_app_iff in H. destruct H as [H|[<-|[]]].
      * now left.
      * right. exists m. split; [now left|reflexivity].
    + right. exists m'. split; [now right|assumption].
Qed.

Lemma NoDup_app_disjoint {A : Type} (l1 l2 : list A) (x : A) :
  List.NoDup (l1 ++ l2) -> In x l1 -> In x l2 -> False.
Proof.
  induction l1 as [|a l1 IH]; simpl; intros ND H1 H2; [assumption|].
  inversion ND as [|? ? Ha ND']; subst. destruct H1 as [->|H1].
  - apply Ha, in_app_iff. now right.
  - now apply IH.
Qed.

(** Adding a graph to I keeps every record the query returned, in place:
    the new answer is the old one followed by records attributed to the
    added graph, and by nothing when the graph was in I already. *)
Theorem add_iso_appends (g : Z) (db : database) :
  exists more,
    get_induced_subgraphs (fst (add_iso g db))
    = get_induced_subgraphs db ++ more /\
    (forall r, In r more -> subgraph_id r = g) /\
    (In g (isos db) -> more = []).
Proof.
  destruct (add_iso_frame g db) as [Hi Hg].
  set (db' := fst (add_iso g db)) in *.
  set (new := map (pair g) (isoalg.subgraph_isomorphisms_iter
                              (_get_graph 0 db) (_get_graph g db))).
  assert (Hm : matches db' = matches db ++ new).
  { unfold matches. rewrite Hi, flat_map_app. simpl. rewrite app_nil_r, !Hg.
    f_equal. apply flat_map_ext. intros id. now rewrite Hg. }
  rewrite !get_induced_subgraphs_aggregate, Hm, aggregate_app, Hg.
  destruct (aggregate_spec (_get_graph 0 db) (matches db ++ new))
    as (_ & _ & ND & _).
  destruct (aggregate_spec (_get_graph 0 db) (matches db)) as (I1 & _).
  rewrite aggregate_app in ND.
  set (st := aggregate (_get_graph 0 db) (matches db) (∅, [])) in *.
  destruct (aggregate_extends (_get_graph 0 db) new st) as [more E].
  exists more. split; [exact E|]. split.
  - intros r Hr.
    assert (Hin : In r (snd (aggregate (_get_graph 0 db) new st)))
      by (rewrite E; apply in_app_iff; now right).
    destruct (aggregate_ids _ _ _ _ Hin) as [Hold|(m & Hm' & ->)].
    + exfalso. rewrite E, map_app in ND.
      apply (NoDup_app_disjoint _ _ (vertex_set r) ND); now apply in_map.
    + unfold new in Hm'. apply in_map_iff in Hm'.
      destruct Hm' as (gm & <- & _). reflexivity.
  - intros Hin.
    assert (Hst : aggregate (_get_graph 0 db) new st = st).
    { apply aggregate_seen. intros m Hm'. apply I1.
      exists m. split; [|reflexivity]. unfold new in Hm'.
      apply in_map_iff in Hm'. destruct Hm' as (gm & <- & Hgm).
      now apply in_matches. }
    rewrite Hst in E. rewrite <- (app_nil_r (snd st)) in E at 1.
    apply app_inv_head in E. now symmetry.
Qed.

Lemma add_iso_appends_witness :
  get_induced_subgraphs (fst (add_iso 1 path_table))
  = get_induced_subgraphs path_table.
Proof.
  destruct (add_iso_appends 1 path_table) as (more & E & _ & Hnil).
  rewrite E, Hnil; [apply app_nil_r|]. vm_compute. auto.
Defined.

(** ** Deleting and copying a graph *)

Lemma first_name_names (g : Z) (db : database) :
  first_name (search (Q.properties_of g) db)
  = hd EmptyString (flat_map (doc_names g) db).
Proof.
  unfold search. induction db as [|d db IH]; simpl; [reflexivity|].
  destruct d; simpl; try exact IH.
  destruct (g_id =? g); simpl; [reflexivity|exact IH].
Qed.

Lemma iso_flag_isos (g : Z) (db db' : database) :
  isos db' = isos db ->
  Dict.iso (get_graph_dict g db') = Dict.iso (get_graph_dict g db).
Proof.
  intros E. apply eq_true_iff_eq. rewrite !iso_flag. now rewrite E.
Qed.

(** A dict is determined by what the documents contribute. *)
Lemma get_graph_dict_ext (g g1 : Z) (db db' : database) :
  flat_map (doc_placed g) db' = flat_map (doc_placed g1) db ->
  flat_map (doc_edges g) db' = flat_map (doc_edges g1) db ->
  flat_map (doc_names g) db' = flat_map (doc_names g1) db ->
  Dict.iso (get_graph_dict g db') = Dict.iso (get_graph_dict g1 db) ->
  get_graph_dict g db' = get_graph_dict g1 db.
Proof.
  intros E1 E2 E3 E4. rewrite !get_graph_dict_flat in *. simpl in E4.
  rewrite !first_name_names, E1, E2, E3, E4. reflexivity.
Qed.

Lemma remove_graph_isos (g : Z) (db : database) :
  isos (snd (remove (Q.of_graph g) db))
  = List.filter (fun id => negb (id =? g)) (isos db).
Proof.
  rewrite !isos_flat. unfold remove, Q.of_graph. cbn [snd].
  induction db as [|d db IH]; simpl; [reflexivity|].
  destruct d; simpl; destruct (g_id =? g); simpl; rewrite ?IH; reflexivity.
Qed.

(** [remove_graph] leaves nothing of the graph, which is then the empty
    graph, out of I and without a name, and leaves the other graphs, their
    dicts and the rest of I as they were. *)
Theorem remove_graph_effect (g : Z) (db : database) :
  let db' := fst (remove_graph g db) in
  (forall d, In d db' -> doc_g_id d <> g) /\
  _get_graph g db' = nx.empty /\
  get_graph_dict g db' = no_graph /\
  isos db' = List.filter (fun id => negb (id =? g)) (isos db) /\
  (forall g', g' <> g ->
     _get_graph g' db' = _get_graph g' db /\
     get_graph_dict g' db' = get_graph_dict g' db).
Proof.
  unfold remove_graph. cbn [fst].
  set (db' := snd (remove (Q.of_graph g) db)).
  assert (Hgone : forall d, In d db' -> doc_g_id d <> g).
  { intros d Hd. apply in_remove in Hd. destruct Hd as [_ Hd].
    unfold Q.of_graph in Hd. lia. }
  assert (Hi : isos db' = List.filter (fun id => negb (id =? g)) (isos db))
    by apply remove_graph_isos.
  assert (Hnone : forall {B : Type} (h : document -> list B),
             (forall d, doc_g_id d <> g -> h d = []) -> flat_map h db' = []).
  { intros B h Hh. apply flat_map_none. intros d Hd. apply Hh, Hgone, Hd. }
  assert (Hkeep : forall {B : Type} (h : document -> list B),
             (forall d, doc_g_id d = g -> h d = []) ->
             flat_map h db' = flat_map h db).
  { intros B h Hh. apply remove_frame. intros d Hd. apply Hh.
    unfold Q.of_graph in Hd. lia. }
  assert (Hz : forall a b : Z, a <> b -> (a =? b) = false)
    by (intros a b; apply Z.eqb_neq).
  assert (Hgo : forall {B : Type} (x : list B) (d : document) g0,
            doc_g_id d <> g -> g0 = doc_g_id d ->
            (if g0 =? g then x else []) = []).
  { intros B x d g0 Hd ->. now rewrite Hz. }
  assert (Hko : forall {B : Type} (x : list B) g0 g',
            g' <> g -> g0 = g -> (if g0 =? g' then x else []) = []).
  { intros B x g0 g' Hd ->. rewrite Hz; congruence. }
  split; [exact Hgone|]. split; [|split; [|split; [exact Hi|]]].
  - rewrite get_graph_build, !Hnone; [reflexivity| |];
      intros d Hd; destruct d; simpl; try reflexivity; eapply Hgo; eauto.
  - rewrite get_graph_dict_flat, first_name_names, !Hnone;
      try (intros d Hd; destruct d; simpl; try reflexivity; eapply Hgo; eauto).
    unfold no_graph. f_equal. simpl.
    replace (search (Q.iso_of g) db') with (@nil document); [reflexivity|].
    symmetry. apply filter_nothing. intros d Hd. apply Hgone in Hd.
    destruct d; simpl in *; try reflexivity. now apply Hz.
  - intros g' Hne. split.
    + apply get_graph_ext; apply Hkeep; intros d Hd; destruct d; simpl in *;
        try reflexivity; now apply Hko.
    + apply get_graph_dict_ext; try (apply Hkeep; intros d Hd; destruct d;
        simpl in *; try reflexivity; now apply Hko).
      apply eq_true_iff_eq. rewrite !iso_flag, Hi, filter_In.
      split; [tauto|]. intros Hin. split; [assumption|].
      now apply negb_true_iff, Z.eqb_neq.
Qed.

Lemma remove_graph_effect_witness :
  _get_graph 1 (fst (remove_graph 0 path_table)) = _get_graph 1 path_table.
Proof.
  apply (remove_graph_effect 0 path_table). lia.
Defined.

Lemma erase_graph_table (g1_id : Z) (g2_id : option Z) (name : option string)
    (db db' : database) (g : Z) :
  erase_graph g1_id g2_id name db = Returns (ErasedTo g) db' ->
  db' = named name g (copied g1_id g db).
Proof.
  unfold erase_graph. destruct (bool_decide (Some g1_id = g2_id)); [discriminate|].
  destruct g2_id as [g2|].
  - intros [= <- <-]. rewrite inserts_app. now destruct name.
  - destruct (py_max _) as [e|m]; [discriminate|].
    intros [= <- <-]. rewrite inserts_app. now destruct name.
Qed.

Section Copy.

Context {B : Type}.

(** A contribution to a graph that follows the document's [g_id]. *)
Variable h : Z -> document -> list B.
Hypothesis h_own : forall g d, doc_g_id d <> g -> h g d = [].
Hypothesis h_not_iso : forall g d, Q.is_iso d = true -> h g d = [].
Hypothesis h_renamed :
  forall g d, Q.is_iso d = false -> h g (set_g_id g d) = h (doc_g_id d) d.

Lemma doc_g_id_set (g : Z) (d : document) : doc_g_id (set_g_id g d) = g.
Proof. now destruct d. Qed.

Lemma copied_other (g1 g g' : Z) (db : database) :
  g' <> g -> flat_map (h g') (copied g1 g db) = flat_map (h g') db.
Proof.
  intros Hne. unfold copied. rewrite flat_map_app, flat_map_map.
  rewrite (flat_map_none (fun a => h g' (set_g_id g a))).
  - rewrite app_nil_r. apply remove_frame. intros d Hd. apply h_own.
    unfold Q.of_graph in Hd. lia.
  - intros d _. apply h_own. rewrite doc_g_id_set. congruence.
Qed.

Lemma copied_same (g1 g : Z) (db : database) :
  g <> g1 -> flat_map (h g) (copied g1 g db) = flat_map (h g1) db.
Proof.
  intros Hne. unfold copied.
  set (db1 := snd (remove (Q.of_graph g) db)).
  assert (H1 : flat_map (h g) db1 = []).
  { apply flat_map_none. intros d Hd. apply in_remove in Hd.
    destruct Hd as [_ Hd]. apply h_own. unfold Q.of_graph in Hd. lia. }
  assert (H2 : flat_map (h g1) db1 = flat_map (h g1) db).
  { apply remove_frame. intros d Hd. apply h_own.
    unfold Q.of_graph in Hd. lia. }
  rewrite flat_map_app, flat_map_map, H1, <- H2. cbn [app]. unfold search.
  clear H1 H2. induction db1 as [|d l IH]; [reflexivity|].
  cbn [List.filter flat_map]. unfold Q.copied_from at 1.
  destruct (doc_g_id d =? g1) eqn:Eg, (Q.is_iso d) eqn:Ei; cbn [andb negb];
    cbn [flat_map]; rewrite IH; zbool.
  - now rewrite h_not_iso.
  - rewrite h_renamed by assumption. now subst g1.
  - now rewrite h_own.
  - now rewrite h_own.
Qed.

End Copy.

Lemma copied_isos (g1 g : Z) (db : database) :
  isos (copied g1 g db) = List.filter (fun id => negb (id =? g)) (isos db).
Proof.
  rewrite <- remove_graph_isos, !isos_flat. unfold copied.
  rewrite flat_map_app, flat_map_map, (flat_map_none (fun a => doc_isos (set_g_id g a))).
  - apply app_nil_r.
  - intros d Hd. apply in_search in Hd. destruct Hd as [_ Hd].
    unfold Q.copied_from in Hd. zbool. now destruct d.
Qed.

Lemma named_frame {B : Type} (h : document -> list B) (name : option string)
    (g : Z) (db : database) :
  (forall g' n', h (PropertiesDoc g' n') = []) ->
  flat_map h (named name g db) = flat_map h db.
Proof.
  intros Hh. destruct name; [now apply set_name_frame|reflexivity].
Qed.

Lemma named_names (name : option string) (g g' : Z) (db : database) :
  hd EmptyString (flat_map (doc_names g') (named name g db))
  = match name with
    | Some n =>
        if g' =? g then n else hd EmptyString (flat_map (doc_names g') db)
    | None => hd EmptyString (flat_map (doc_names g') db)
    end.
Proof.
  destruct name as [n|]; [|reflexivity]. simpl.
  rewrite <- !first_name_names. destruct (g' =? g) eqn:E; zbool.
  - subst. apply set_name_first.
  - now rewrite set_name_other.
Qed.

Lemma own_contribution {B : Type} (x : list B) (g0 g : Z) :
  g0 <> g -> (if g0 =? g then x else []) = [].
Proof.
  intros Hne. now replace (g0 =? g) with false by (symmetry; now apply Z.eqb_neq).
Qed.

Lemma doc_nodes_follow :
  (forall g d, doc_g_id d <> g -> doc_nodes g d = []) /\
  (forall g d, Q.is_iso d = true -> doc_nodes g d = []) /\
  (forall g d, Q.is_iso d = false ->
     doc_nodes g (set_g_id g d) = doc_nodes (doc_g_id d) d).
Proof.
  split; [|split]; intros g d Hd; destruct d; simpl in *; try reflexivity;
    try discriminate; rewrite ?Z.eqb_refl; try reflexivity.
  now apply own_contribution.
Qed.

Lemma doc_edges_follow :
  (forall g d, doc_g_id d <> g -> doc_edges g d = []) /\
  (forall g d, Q.is_iso d = true -> doc_edges g d = []) /\
  (forall g d, Q.is_iso d = false ->
     doc_edges g (set_g_id g d) = doc_edges (doc_g_id d) d).
Proof.
  split; [|split]; intros g d Hd; destruct d; simpl in *; try reflexivity;
    try discriminate; rewrite ?Z.eqb_refl; try reflexivity.
  now apply own_contribution.
Qed.

(** The graphs after a copy. *)
Lemma erase_graph_graphs (g1_id : Z) (g2_id : option Z)
    (name : option string) (db db' : database) (g : Z) :
  erase_graph g1_id g2_id name db = Returns (ErasedTo g) db' ->
  g <> g1_id ->
  _get_graph g db' = _get_graph g1_id db /\
  (forall g', g' <> g -> _get_graph g' db' = _get_graph g' db).
Proof.
  intros He Hne. apply erase_graph_table in He. subst db'.
  destruct doc_nodes_follow as (Hn1 & Hn2 & Hn3).
  destruct doc_edges_follow as (He1 & He2 & He3).
  split; [|intros g' Hg']; rewrite !get_graph_build;
    rewrite !named_frame by reflexivity.
  - now rewrite (copied_same doc_nodes), (copied_same doc_edges).
  - now rewrite (copied_other doc_nodes), (copied_other doc_edges).
Qed.

(** What [erase_graph] does when it returns the id [g] of a graph other
    than the copied one: afterwards [g] is the graph [g1_id] was, node for
    node and edge for edge, with the same coordinates, and with the given
    name, or the name of [g1_id] when none is given; [g] is not in I; every
    other graph, its dict and the rest of I are as before. *)
Theorem erase_graph_copies (g1_id : Z) (g2_id : option Z)
    (name : option string) (db db' : database) (g : Z) :
  erase_graph g1_id g2_id name db = Returns (ErasedTo g) db' ->
  g <> g1_id ->
  _get_graph g db' = _get_graph g1_id db /\
  Dict.nodes (get_graph_dict g db') = Dict.nodes (get_graph_dict g1_id db) /\
  Dict.edges (get_graph_dict g db') = Dict.edges (get_graph_dict g1_id db) /\
  Dict.name (get_graph_dict g db')
  = match name with
    | Some n => n
    | None => Dict.name (get_graph_dict g1_id db)
    end /\
  isos db' = List.filter (fun id => negb (id =? g)) (isos db) /\
  (forall g', g' <> g ->
     _get_graph g' db' = _get_graph g' db /\
     get_graph_dict g' db' = get_graph_dict g' db).
Proof.
  intros He Hne. apply erase_graph_table in He. subst db'.
  assert (Hz : forall a b : Z, a <> b -> (a =? b) = false)
    by (intros a b; apply Z.eqb_neq).
  assert (Hn1 : forall g0 d, doc_g_id d <> g0 -> doc_nodes g0 d = []).
  { intros g0 d Hd. destruct d; simpl in *; try reflexivity. now rewrite Hz. }
  assert (Hn2 : forall g0 d, Q.is_iso d = true -> doc_nodes g0 d = [])
    by (intros g0 d Hd; now destruct d).
  assert (Hn3 : forall g0 d, Q.is_iso d = false ->
                  doc_nodes g0 (set_g_id g0 d) = doc_nodes (doc_g_id d) d).
  { intros g0 d _. destruct d; simpl; try reflexivity. now rewrite !Z.eqb_refl. }
  assert (He1 : forall g0 d, doc_g_id d <> g0 -> doc_edges g0 d = []).
  { intros g0 d Hd. destruct d; simpl in *; try reflexivity. now rewrite Hz. }
  assert (He2 : forall g0 d, Q.is_iso d = true -> doc_edges g0 d = [])
    by (intros g0 d Hd; now destruct d).
  assert (He3 : forall g0 d, Q.is_iso d = false ->
                  doc_edges g0 (set_g_id g0 d) = doc_edges (doc_g_id d) d).
  { intros g0 d _. destruct d; simpl; try reflexivity. now rewrite !Z.eqb_refl. }
  assert (Hp1 : forall g0 d, doc_g_id d <> g0 -> doc_placed g0 d = []).
  { intros g0 d Hd. destruct d; simpl in *; try reflexivity. now rewrite Hz. }
  assert (Hp2 : forall g0 d, Q.is_iso d = true -> doc_placed g0 d = [])
    by (intros g0 d Hd; now destruct d).
  assert (Hp3 : forall g0 d, Q.is_iso d = false ->
                  doc_placed g0 (set_g_id g0 d) = doc_placed (doc_g_id d) d).
  { intros g0 d _. destruct d; simpl; try reflexivity. now rewrite !Z.eqb_refl. }
  assert (Hm1 : forall g0 d, doc_g_id d <> g0 -> doc_names g0 d = []).
  { intros g0 d Hd. destruct d; simpl in *; try reflexivity. now rewrite Hz. }
  assert (Hm2 : forall g0 d, Q.is_iso d = true -> doc_names g0 d = [])
    by (intros g0 d Hd; now destruct d).
  assert (Hm3 : forall g0 d, Q.is_iso d = false ->
                  doc_names g0 (set_g_id g0 d) = doc_names (doc_g_id d) d).
  { intros g0 d _. destruct d; simpl; try reflexivity. now rewrite !Z.eqb_refl. }
  assert (Hi : isos (named name g (copied g1_id g db))
               = List.filter (fun id => negb (id =? g)) (isos db)).
  { rewrite <- (copied_isos g1_id), !isos_flat. now apply named_frame. }
  split; [|split; [|split; [|split; [|split; [exact Hi|]]]]].
  - rewrite !get_graph_build.
    rewrite !named_frame by reflexivity.
    now rewrite (copied_same doc_nodes), (copied_same doc_edges).
  - rewrite !get_graph_dict_flat. simpl.
    rewrite named_frame by reflexivity. now apply copied_same.
  - rewrite !get_graph_dict_flat. simpl.
    rewrite named_frame by reflexivity. now apply copied_same.
  - rewrite !get_graph_dict_flat. simpl.
    rewrite !first_name_names, named_names. destruct name as [n|].
    + now rewrite Z.eqb_refl.
    + now rewrite (copied_same doc_names).
  - intros g' Hg'. split.
    + rewrite !get_graph_build.
      rewrite !named_frame by reflexivity.
      now rewrite (copied_other doc_nodes), (copied_other doc_edges).
    + apply get_graph_dict_ext.
      * rewrite named_frame by reflexivity. now apply copied_other.
      * rewrite named_frame by reflexivity. now apply copied_other.
      * destruct name as [n|]; simpl.
        -- unfold set_name.
           destruct (set_name_cases g n (copied g1_id g db)) as [[_ E]|[_ E]];
             unfold set_name in E; rewrite E.
           ++ rewrite flat_map_app. simpl. rewrite Hz by congruence.
              rewrite app_nil_r. now apply copied_other.
           ++ rewrite flat_map_map.
              rewrite <- (copied_other doc_names Hm1 g1_id g g' db Hg').
              apply flat_map_ext. intros d. destruct d; simpl; try reflexivity.
              destruct (g_id =? g) eqn:Eg; [|reflexivity]. zbool. subst.
              simpl. now rewrite Hz by congruence.
        -- now apply copied_other.
      * apply eq_true_iff_eq. rewrite !iso_flag, Hi, filter_In.
        split; [tauto|]. intros Hin. split; [assumption|].
        now apply negb_true_iff, Z.eqb_neq.
Qed.

Lemma erase_graph_copies_witness :
  exists db',
    erase_graph 1 (Some 0) (Some "edge") path_table
    = Returns (ErasedTo 0) db' /\
    _get_graph 0 db' = _get_graph 1 path_table /\
    Dict.name (get_graph_dict 0 db') = "edge".
Proof.
  eexists. split; [reflexivity|].
  pose proof (erase_graph_copies 1 (Some 0) (Some "edge") path_table _ 0
                eq_refl) as H.
  destruct H as (H1 & _ & _ & H4 & _); [lia|]. split; assumption.
Defined.

(** ** Every call keeps the stored graphs simple *)

Lemma count_le_impl {A : Type} (c c' : A -> bool) (l : list A) :
  (forall a, c a = true -> c' a = true) ->
  (length (List.filter c l) <= length (List.filter c' l))%nat.
Proof.
  intros Hc. induction l as [|a l IH]; simpl; [lia|].
  destruct (c a) eqn:C.
  - rewrite (Hc a C). simpl. lia.
  - destruct (c' a); simpl; lia.
Qed.

(** The invariant only counts node and edge documents. *)
Lemma invariant_counts (db db' : database) :
  (forall g u, length (search (Q.node_of g u) db')
               = length (search (Q.node_of g u) db)) ->
  (forall g u v, length (search (Q.edge_of g u v) db')
                 = length (search (Q.edge_of g u v) db)) ->
  editing_invariant db -> editing_invariant db'.
Proof.
  intros Hn He [N E S P].
  assert (Hin : forall g u v, In (EdgeDoc g u v) db' -> In (EdgeDoc g u v) db)
    by (intros g u v; rewrite !edge_count, He; auto).
  assert (Hst : forall g u, stored_node db g u -> stored_node db' g u)
    by (intros g u; rewrite !stored_node_count, Hn; auto).
  split.
  - intros g u. rewrite Hn. apply N.
  - intros g u v. rewrite He. apply E.
  - intros g u v H. apply S with g. now apply Hin.
  - intros g u v H. destruct (P g u v (Hin _ _ _ H)). split; now apply Hst.
Qed.

Lemma add_iso_invariant (g : Z) (db : database) :
  editing_invariant db -> editing_invariant (fst (add_iso g db)).
Proof.
  apply invariant_counts; intros; unfold add_iso; cbn [fst];
    rewrite search_insert; simpl; now rewrite app_nil_r.
Qed.

Lemma remove_iso_invariant (g : Z) (db : database) :
  editing_invariant db -> editing_invariant (fst (remove_iso g db)).
Proof.
  apply invariant_counts; intros; unfold remove_iso, remove, search;
    cbn [fst snd]; f_equal; apply filter_filter_keep;
    intros d Hd; now destruct d.
Qed.

Lemma move_node_invariant (g u x y : Z) (db : database) :
  editing_invariant db -> editing_invariant (fst (move_node g u x y db)).
Proof.
  apply invariant_counts; intros; unfold move_node, update, search;
    cbn [fst snd]; rewrite count_map; f_equal; apply List.filter_ext;
    intros d; destruct d; simpl; try reflexivity;
    now destruct ((g_id =? g) && (u_id =? u)).
Qed.

Lemma set_name_invariant (g : Z) (n : string) (db : database) :
  editing_invariant db -> editing_invariant (set_name g n db).
Proof.
  apply invariant_counts; intros; now rewrite set_name_search.
Qed.

Lemma named_invariant (name : option string) (g : Z) (db : database) :
  editing_invariant db -> editing_invariant (named name g db).
Proof. destruct name; [apply set_name_invariant|auto]. Qed.

Lemma remove_graph_invariant (g : Z) (db : database) :
  editing_invariant db -> editing_invariant (snd (remove (Q.of_graph g) db)).
Proof.
  intros [N E S P]. unfold remove. cbn [snd]. split.
  - intros g' u. etransitivity; [apply count_filter_le|apply N].
  - intros g' u v. etransitivity; [apply count_filter_le|apply E].
  - intros g' u v H. apply filter_In in H. destruct H as [H _]. eauto.
  - intros g' u v H. apply filter_In in H. destruct H as [H Hg].
    destruct (P _ _ _ H) as [(x & y & H1) (x' & y' & H2)].
    split; [exists x, y|exists x', y']; apply filter_In; split; assumption.
Qed.

Lemma filter_filter_and {A : Type} (c p : A -> bool) (l : list A) :
  List.filter c (List.filter p l) = List.filter (fun a => p a && c a) l.
Proof.
  induction l as [|a l IH]; simpl; [reflexivity|].
  destruct (p a); simpl; now rewrite IH.
Qed.

Lemma copied_count (c c1 : document -> bool) (g1 g g0 : Z) (db1 : database) :
  (forall d, In d db1 -> doc_g_id d <> g) ->
  (forall d, doc_g_id d <> g0 -> c d = false) ->
  (forall d, doc_g_id d = g1 -> c (set_g_id g d) = true -> c1 d = true) ->
  (length (List.filter c1 db1) <= 1)%nat ->
  (length (List.filter c db1) <= 1)%nat ->
  (length (List.filter c
             (db1 ++ map (set_g_id g) (search (Q.copied_from g1) db1))) <= 1)%nat.
Proof.
  intros Hgone Hown Hren H1 H0. rewrite List.filter_app, length_app.
  destruct (Z.eq_dec g0 g) as [->|Hg0].
  - rewrite (filter_nothing c db1) by (intros d Hd; apply Hown, Hgone, Hd).
    simpl. rewrite count_map. unfold search. rewrite filter_filter_and.
    etransitivity; [|exact H1]. apply count_le_impl. intros d Hd.
    unfold Q.copied_from in Hd. zbool. now apply Hren.
  - rewrite (filter_nothing c (map _ _)); [simpl; lia|].
    intros d Hd. apply in_map_iff in Hd. destruct Hd as (d0 & <- & _).
    apply Hown. rewrite doc_g_id_set. congruence.
Qed.

Lemma copied_invariant (g1 g : Z) (db : database) :
  editing_invariant db -> editing_invariant (copied g1 g db).
Proof.
  intros Inv. apply (remove_graph_invariant g) in Inv. unfold copied.
  set (db1 := snd (remove (Q.of_graph g) db)) in *.
  assert (Hgone : forall d, In d db1 -> doc_g_id d <> g).
  { intros d Hd. apply in_remove in Hd. destruct Hd as [_ Hd].
    unfold Q.of_graph in Hd. lia. }
  destruct Inv as [N E S P].
  assert (HM : forall d,
             In d (map (set_g_id g) (search (Q.copied_from g1) db1)) ->
             exists d0, In d0 db1 /\ doc_g_id d0 = g1 /\ d = set_g_id g d0).
  { intros d Hd. apply in_map_iff in Hd.
    destruct Hd as (d0 & <- & Hd0). apply in_search in Hd0.
    destruct Hd0 as [Hd0 Hc]. unfold Q.copied_from in Hc. zbool.
    exists d0. repeat split; auto. }
  assert (Hcopy : forall u x y,
             In (NodeDoc g1 u x y) db1 ->
             stored_node
               (db1 ++ map (set_g_id g) (search (Q.copied_from g1) db1)) g u).
  { intros u x y Hd. exists x, y. apply in_app_iff. right.
    apply in_map_iff. exists (NodeDoc g1 u x y). split; [reflexivity|].
    apply in_search. split; [assumption|]. unfold Q.copied_from. simpl.
    now rewrite Z.eqb_refl. }
  split.
  - intros g0 u. apply (copied_count _ (Q.node_of g1 u) g1 g g0);
      try assumption; [| |apply N|apply N].
    + intros d Hd. destruct d; simpl in *; try reflexivity.
      now replace (g_id =? g0) with false by (symmetry; now apply Z.eqb_neq).
    + intros d Hd Hc. destruct d; simpl in *; try discriminate. zbool.
      subst. now rewrite !Z.eqb_refl.
  - intros g0 u v. apply (copied_count _ (Q.edge_of g1 u v) g1 g g0);
      try assumption; [| |apply E|apply E].
    + intros d Hd. destruct d; simpl in *; try reflexivity.
      now replace (g_id =? g0) with false by (symmetry; now apply Z.eqb_neq).
    + intros d Hd Hc. destruct d; simpl in *; try discriminate. zbool.
      subst. now rewrite !Z.eqb_refl.
  - intros g0 u v H. apply in_app_iff in H. destruct H as [H|H]; [eauto|].
    destruct (HM _ H) as (d0 & Hd0 & _ & Ed).
    destruct d0; simpl in Ed; try discriminate. injection Ed as -> -> ->. eauto.
  - intros g0 u v H. apply in_app_iff in H. destruct H as [H|H].
    + destruct (P _ _ _ H) as [(x & y & H1) (x' & y' & H2)].
      split; [exists x, y|exists x', y']; apply in_app_iff; now left.
    + destruct (HM _ H) as (d0 & Hd0 & Hg & Ed).
      destruct d0; simpl in Ed, Hg; try discriminate.
      injection Ed as -> -> ->. subst g_id.
      destruct (P _ _ _ Hd0) as [(x & y & H1) (x' & y' & H2)].
      split; eapply Hcopy; eassumption.
Qed.

Lemma erase_graph_invariant (g1_id : Z) (g2_id : option Z)
    (name : option string) (db : database) :
  editing_invariant db ->
  editing_invariant
    (match erase_graph g1_id g2_id name db with
     | Returns _ db' => db'
     | Raises _ db' => db'
     end).
Proof.
  intros Inv. destruct (erase_graph g1_id g2_id name db) as [[|g] db'|e db'] eqn:E.
  - unfold erase_graph in E.
    destruct (bool_decide (Some g1_id = g2_id)); [now injection E as <-|].
    destruct g2_id as [g2|]; [discriminate|].
    destruct (py_max _); discriminate.
  - apply erase_graph_table in E. subst db'.
    now apply named_invariant, copied_invariant.
  - unfold erase_graph in E.
    destruct (bool_decide (Some g1_id = g2_id)); [discriminate|].
    destruct g2_id as [g2|]; [discriminate|].
    destruct (py_max _); [now injection E as <- <-|discriminate].
Qed.

Lemma apply_call_invariant (db : database) (c : call) :
  editing_invariant db -> editing_invariant (apply_call db c).
Proof.
  intros Inv. destruct c; simpl.
  - now apply add_iso_invariant.
  - now apply remove_iso_invariant.
  - now apply add_node_invariant.
  - now apply add_edge_invariant.
  - now apply remove_node_invariant.
  - now apply remove_edge_invariant.
  - now apply move_node_invariant.
  - destruct name as [n|]; [|assumption]. now apply set_name_invariant.
  - now apply remove_graph_invariant.
  - now apply erase_graph_invariant.
Qed.

Lemma invariant_not_malformed (db : database) (g : Z) :
  editing_invariant db -> ~ malformed db g.
Proof.
  intros Inv. destruct (invariant_simple db Inv) as (H1 & H2 & H3).
  intros [(u & v & Hin & Hn)|[(i & j & u & v & u' & v' & Hi & Hj & Hp & Hne)
                             |(u & Hin)]].
  - destruct (H3 _ _ _ Hin). tauto.
  - apply Hne. eapply H2; eassumption.
  - exact (H1 _ _ Hin).
Qed.

(** Whatever the module is called with, in whatever order, from the empty
    table or from any table that satisfies the editing invariant, the table
    satisfies the invariant afterwards: no stored graph is ever malformed,
    also after a call that raised. *)
Theorem calls_keep_graphs_simple (db0 : database) (cs : list call) :
  editing_invariant db0 ->
  let db := apply_calls cs db0 in
  editing_invariant db /\
  no_self_loop db /\ no_parallel_edges db /\ endpoints_stored db /\
  (forall g, ~ malformed db g).
Proof.
  intros Inv db.
  assert (Inv' : editing_invariant db).
  { unfold db, apply_calls. clear db. revert db0 Inv.
    induction cs as [|c cs IH]; intros db0 Inv; simpl; [assumption|].
    now apply IH, apply_call_invariant. }
  destruct (invariant_simple db Inv') as (H1 & H2 & H3).
  repeat (split; [assumption|]). intros g. now apply invariant_not_malformed.
Qed.

Lemma calls_keep_graphs_simple_witness :
  let db := apply_calls
              [CallAddNode 0 1 0 0; CallAddNode 0 2 5 5; CallAddEdge 0 2 1;
               CallSaveMainName (Some "edge"); CallEraseGraph 0 None None;
               CallAddIso 1; CallMoveNode 0 1 3 3; CallRemoveNode 0 2;
               CallEraseGraph 1 (Some 0) None; CallRemoveGraph 1] [] in
  db = [NodeDoc 0 1 0 0; NodeDoc 0 2 5 5; EdgeDoc 0 1 2; PropertiesDoc 0 "edge"] /\
  forall g, ~ malformed db g.
Proof.
  split; [reflexivity|].
  apply (calls_keep_graphs_simple [] _ empty_invariant).
Defined.

(** ** The graph shown is the graph searched *)


Lemma in_doc_nodes (g u : Z) (db : database) :
  In u (flat_map (doc_nodes g) db) <-> stored_node db g u.
Proof.
  rewrite in_flat_map. split.
  - intros (d & Hd & Hu). destruct d; simpl in Hu; try contradiction.
    destruct (g_id =? g) eqn:E; [|contradiction]. destruct Hu as [->|[]].
    zbool. subst. now exists x, y.
  - intros (x & y & Hd). eexists. split; [exact Hd|]. simpl.
    rewrite Z.eqb_refl. now left.
Qed.

Lemma in_doc_edges (g u v : Z) (db : database) :
  In (u, v) (flat_map (doc_edges g) db) <-> In (EdgeDoc g u v) db.
Proof.
  rewrite in_flat_map. split.
  - intros (d & Hd & Hu). destruct d; simpl in Hu; try contradiction.
    destruct (g_id =? g) eqn:E; [|contradiction].
    destruct Hu as [[= -> ->]|[]]. zbool. now subst.
  - intros Hd. eexists. split; [exact Hd|]. simpl.
    rewrite Z.eqb_refl. now left.
Qed.

Lemma doc_nodes_NoDup (g : Z) (db : database) :
  (forall u, (length (search (Q.node_of g u) db) <= 1)%nat) ->
  List.NoDup (flat_map (doc_nodes g) db).
Proof.
  unfold search. induction db as [|d db IH]; intros Hc; simpl; [constructor|].
  assert (Hc' : forall u, (length (List.filter (Q.node_of g u) db) <= 1)%nat).
  { intros u. specialize (Hc u). simpl in Hc.
    destruct (Q.node_of g u d); simpl in Hc; lia. }
  destruct d as [g' u x y| | |]; simpl; auto.
  destruct (g' =? g) eqn:Eg; simpl; auto. zbool. subst g'.
  constructor; [|auto]. intros Hin. apply in_doc_nodes, stored_node_count in Hin.
  specialize (Hc u). simpl in Hc. rewrite !Z.eqb_refl in Hc. simpl in Hc.
  unfold search in Hin. lia.
Qed.

Lemma doc_edges_NoDup (g : Z) (db : database) :
  (forall u v, (length (search (Q.edge_of g u v) db) <= 1)%nat) ->
  List.NoDup (flat_map (doc_edges g) db).
Proof.
  unfold search. induction db as [|d db IH]; intros Hc; simpl; [constructor|].
  assert (Hc' : forall u v, (length (List.filter (Q.edge_of g u v) db) <= 1)%nat).
  { intros u v. specialize (Hc u v). simpl in Hc.
    destruct (Q.edge_of g u v d); simpl in Hc; lia. }
  destruct d as [|g' u v| |]; simpl; auto.
  destruct (g' =? g) eqn:Eg; simpl; auto. zbool. subst g'.
  constructor; [|auto]. intros Hin. apply in_doc_edges, edge_count in Hin.
  specialize (Hc u v). simpl in Hc. rewrite !Z.eqb_refl in Hc. simpl in Hc.
  unfold search in Hin. lia.
Qed.

Lemma add_nodes_from_fresh (ns : list Z) (G : nx.Graph) :
  List.NoDup (nx.nodes G ++ ns) ->
  nx.add_nodes_from ns G
  = {| nx.nodes := nx.nodes G ++ ns; nx.edges := nx.edges G |}.
Proof.
  unfold nx.add_nodes_from. revert G.
  induction ns as [|n ns IH]; intros [N Es] ND; simpl in *.
  - now rewrite app_nil_r.
  - assert (Hn : nx.has_node {| nx.nodes := N; nx.edges := Es |} n = false).
    { destruct (nx.has_node _ n) eqn:Hn; [|reflexivity].
      apply has_node_In in Hn. simpl in Hn. apply NoDup_remove_2 in ND.
      exfalso. apply ND, in_app_iff. now left. }
    unfold nx.add_node at 2. rewrite Hn. rewrite IH; simpl.
    + now rewrite <- app_assoc.
    + now rewrite <- app_assoc.
Qed.

Lemma add_edges_from_fresh (es : list (Z * Z)) (G : nx.Graph) :
  List.NoDup (nx.edges G ++ es) ->
  (forall e, In e (nx.edges G ++ es) ->
     fst e < snd e /\ In (fst e) (nx.nodes G) /\ In (snd e) (nx.nodes G)) ->
  nx.add_edges_from es G
  = {| nx.nodes := nx.nodes G; nx.edges := nx.edges G ++ es |}.
Proof.
  unfold nx.add_edges_from. revert G.
  induction es as [|e es IH]; intros [N Es] ND He; simpl in *.
  - now rewrite app_nil_r.
  - destruct (He e) as (Hlt & Hu & Hv); [apply in_app_iff; right; now left|].
    assert (Hn : forall n, In n N ->
              nx.add_node n {| nx.nodes := N; nx.edges := Es |}
              = {| nx.nodes := N; nx.edges := Es |}).
    { intros n Hin. unfold nx.add_node.
      now rewrite (proj2 (has_node_In {| nx.nodes := N; nx.edges := Es |} n)). }
    unfold nx.add_edge at 2. rewrite !Hn by assumption.
    assert (Hh : nx.has_edge {| nx.nodes := N; nx.edges := Es |} (fst e) (snd e)
                 = false).
    { destruct (nx.has_edge _ _ _) eqn:Hh; [|reflexivity]. exfalso.
      apply has_edge_In in Hh. simpl in Hh. destruct Hh as [Hh|Hh].
      - rewrite <- surjective_pairing in Hh. apply NoDup_remove_2 in ND.
        apply ND, in_app_iff. now left.
      - destruct (He (snd e, fst e)) as (Hlt' & _); [apply in_app_iff; now left|].
        simpl in Hlt'. lia. }
    rewrite Hh, IH; simpl.
    + now rewrite <- app_assoc.
    + now rewrite <- app_assoc.
    + intros e' He'. rewrite <- app_assoc in He'. now apply He.
Qed.

(** Under the editing invariant nothing is merged or added when the graph
    is built: it has the stored nodes and edges, as stored. *)
Lemma get_graph_stored (g : Z) (db : database) :
  editing_invariant db ->
  _get_graph g db
  = {| nx.nodes := flat_map (doc_nodes g) db;
       nx.edges := flat_map (doc_edges g) db |}.
Proof.
  intros [N E S P]. rewrite get_graph_build. unfold build.
  rewrite add_nodes_from_fresh by (simpl; apply doc_nodes_NoDup, N).
  rewrite add_edges_from_fresh; simpl.
  - reflexivity.
  - apply doc_edges_NoDup, E.
  - intros [u v] He. apply in_doc_edges in He. simpl.
    destruct (P _ _ _ He). split; [eauto|]. now rewrite !in_doc_nodes.
Qed.



(** ** A graph without documents *)

Lemma unknown_get_graph (g : Z) (db : database) :
  (forall d, In d db -> doc_g_id d <> g) -> _get_graph g db = nx.empty.
Proof.
  intros Hg. rewrite get_graph_build.
  rewrite (flat_map_none (doc_nodes g)), (flat_map_none (doc_edges g));
    [reflexivity| |]; intros d Hd; apply Hg in Hd; destruct d; simpl in *;
    try reflexivity; now apply own_contribution.
Qed.

(** A graph id no document carries is the empty graph, for the query and
    for the view: nothing is raised for an unknown id. *)
Theorem unknown_graph_is_empty (g : Z) (db : database) :
  (forall d, In d db -> doc_g_id d <> g) ->
  _get_graph g db = nx.empty /\ get_graph_dict g db = no_graph.
Proof.
  intros Hg. split; [now apply unknown_get_graph|].
  rewrite get_graph_dict_flat, first_name_names.
  rewrite (flat_map_none (doc_placed g)), (flat_map_none (doc_edges g)),
    (flat_map_none (doc_names g));
    try (intros d Hd; apply Hg in Hd; destruct d; simpl in *;
         try reflexivity; now apply own_contribution).
  unfold no_graph. f_equal. simpl.
  replace (search (Q.iso_of g) db) with (@nil document); [reflexivity|].
  symmetry. apply filter_nothing. intros d Hd. apply Hg in Hd.
  destruct d; simpl in *; try reflexivity. now apply Z.eqb_neq.
Qed.

Lemma unknown_graph_is_empty_witness :
  get_graph_dict 7 path_table = no_graph.
Proof.
  apply (unknown_graph_is_empty 7 path_table).
  intros d Hd. vm_compute in Hd.
  repeat (destruct Hd as [<-|Hd]; [simpl; lia|]). destruct Hd.
Defined.

(** ** What the editing calls store *)

(** [add_node] answers [True] exactly when the graph has no such node, and
    then the node is the last one the view shows, at the given place, the
    edges and the other graphs being as before; asked a second time it
    answers [False] and leaves the table as it is. *)
Theorem add_node_effect (g u x y : Z) (db : database) :
  let db' := fst (add_node g u x y db) in
  (snd (add_node g u x y db) = true <-> ~ stored_node db g u) /\
  (stored_node db g u -> add_node g u x y db = (db, false)) /\
  (~ stored_node db g u ->
   Dict.nodes (get_graph_dict g db')
   = Dict.nodes (get_graph_dict g db) ++ [(u, x, y)] /\
   Dict.edges (get_graph_dict g db') = Dict.edges (get_graph_dict g db) /\
   (forall g', g' <> g -> _get_graph g' db' = _get_graph g' db) /\
   isos db' = isos db) /\
  (forall x' y', add_node g u x' y' db' = (db', false)).
Proof.
  unfold add_node.
  destruct (length (search (Q.node_of g u) db) =? 0)%nat eqn:C; cbn [fst snd].
  - apply Nat.eqb_eq in C.
    assert (Hn : ~ stored_node db g u)
      by (intros Hs; apply stored_node_count in Hs; lia).
    split; [tauto|]. split; [tauto|]. split.
    + intros _. unfold insert. rewrite !get_graph_dict_flat. simpl.
      rewrite !flat_map_app. simpl. rewrite Z.eqb_refl, !app_nil_r.
      split; [reflexivity|]. split; [reflexivity|]. split.
      * intros g' Hne. apply get_graph_ext; rewrite flat_map_app; simpl;
          rewrite ?app_nil_r; [|reflexivity].
        replace (g =? g') with false by (symmetry; apply Z.eqb_neq; congruence).
        apply app_nil_r.
      * rewrite !isos_flat, flat_map_app. simpl. apply app_nil_r.
    + intros x' y'. rewrite search_insert. simpl. rewrite !Z.eqb_refl. simpl.
      rewrite length_app. simpl.
      now replace (length (search (Q.node_of g u) db) + 1 =? 0)%nat with false
        by (symmetry; apply Nat.eqb_neq; lia).
  - apply Nat.eqb_neq in C.
    assert (Hs : stored_node db g u) by (apply stored_node_count; lia).
    split; [split; [discriminate|tauto]|]. split; [reflexivity|].
    split; [tauto|]. intros x' y'.
    now replace (length (search (Q.node_of g u) db) =? 0)%nat with false
      by (symmetry; now apply Nat.eqb_neq).
Qed.

Lemma add_node_effect_witness :
  Dict.nodes (get_graph_dict 0 (fst (add_node 0 2 4 5 [NodeDoc 0 1 0 0])))
  = [(1, 0, 0); (2, 4, 5)].
Proof.
  destruct (add_node_effect 0 2 4 5 [NodeDoc 0 1 0 0]) as (_ & _ & H & _).
  destruct H as (H & _).
  - intros (x & y & [E|[]]). discriminate.
  - rewrite H. reflexivity.
Defined.

(** In a table that satisfies the editing invariant, [add_edge] accepts an
    edge between two distinct stored nodes that are not joined yet: it
    answers [True], stores the edge smaller endpoint first, after the edges
    the view showed, and the graph then has the edge. *)
Theorem add_edge_accepts (g u v : Z) (db : database) :
  editing_invariant db ->
  u <> v -> stored_node db g u -> stored_node db g v ->
  ~ stored_edge db g u v ->
  let db' := fst (add_edge g u v db) in
  add_edge g u v db = (db ++ [EdgeDoc g (Z.min u v) (Z.max u v)], true) /\
  Dict.edges (get_graph_dict g db')
  = Dict.edges (get_graph_dict g db) ++ [(Z.min u v, Z.max u v)] /\
  nx.has_edge (_get_graph g db') u v = true /\
  nx.nodes (_get_graph g db') = nx.nodes (_get_graph g db).
Proof.
  intros Inv Hne Hu Hv He db'.
  assert (Ea : add_edge g u v db
               = (db ++ [EdgeDoc g (Z.min u v) (Z.max u v)], true)).
  { destruct Inv as [N E S P]. unfold add_edge.
    replace (u =? v) with false by (symmetry; now apply Z.eqb_neq).
    assert (Hab : (if v <? u then (v, u) else (u, v)) = (Z.min u v, Z.max u v)).
    { destruct (v <? u) eqn:L; zbool; f_equal; lia. }
    rewrite Hab.
    assert (Hu' : stored_node db g (Z.min u v))
      by (destruct (Z.min_spec u v) as [[_ ->]|[_ ->]]; assumption).
    assert (Hv' : stored_node db g (Z.max u v))
      by (destruct (Z.max_spec u v) as [[_ ->]|[_ ->]]; assumption).
    apply stored_node_count in Hu', Hv'.
    pose proof (N g (Z.min u v)). pose proof (N g (Z.max u v)).
    rewrite node_among_count by lia.
    replace (length (search (Q.node_of g (Z.min u v)) db)
             + length (search (Q.node_of g (Z.max u v)) db) =? 2)%nat
      with true by (symmetry; apply Nat.eqb_eq; lia).
    simpl.
    assert (C0 : length (search (Q.edge_of g (Z.min u v) (Z.max u v)) db) = 0%nat).
    { destruct (length (search (Q.edge_of g (Z.min u v) (Z.max u v)) db))
        eqn:C; [reflexivity|]. exfalso. apply He.
      assert (Hin : In (EdgeDoc g (Z.min u v) (Z.max u v)) db)
        by (apply edge_count; lia).
      unfold stored_edge.
      destruct (Z.min_spec u v) as [[_ E1]|[_ E1]],
               (Z.max_spec u v) as [[_ E2]|[_ E2]];
        rewrite E1, E2 in Hin; auto; lia. }
    now rewrite C0. }
  split; [exact Ea|]. unfold db'. rewrite Ea. cbn [fst].
  split; [|split].
  - rewrite !get_graph_dict_flat. simpl. rewrite flat_map_app. simpl.
    now rewrite Z.eqb_refl.
  - apply get_graph_has_edge. unfold stored_edge.
    destruct (Z.min_spec u v) as [[_ E1]|[_ E1]],
             (Z.max_spec u v) as [[_ E2]|[_ E2]];
      rewrite E1, E2; try lia; [left|right]; apply in_app_iff; right; now left.
  - pose proof (add_edge_invariant g u v db Inv) as Inv'.
    rewrite Ea in Inv'. cbn [fst] in Inv'.
    rewrite (get_graph_stored g _ Inv'), (get_graph_stored g _ Inv). simpl.
    rewrite flat_map_app. simpl. now rewrite app_nil_r.
Qed.

Lemma add_edge_accepts_witness :
  add_edge 0 2 1 [NodeDoc 0 1 0 0; NodeDoc 0 2 5 5]
  = ([NodeDoc 0 1 0 0; NodeDoc 0 2 5 5; EdgeDoc 0 1 2], true).
Proof.
  apply (add_edge_accepts 0 2 1 (apply_edits
           [AddNode 0 1 0 0; AddNode 0 2 5 5] [])).
  - apply apply_edits_invariant, empty_invariant.
  - lia.
  - eexists _, _. simpl. eauto.
  - eexists _, _. simpl. eauto.
  - intros [H|H]; simpl in H; intuition discriminate.
Defined.

(** In a table that satisfies the editing invariant, [remove_edge] answers
    [True] exactly when the edge is stored, in whichever order the endpoints
    are named; afterwards the graph has the edges it had except that one,
    and no other document is touched. *)
Theorem remove_edge_effect (g u v : Z) (db : database) :
  editing_invariant db ->
  let db' := fst (remove_edge g u v db) in
  (snd (remove_edge g u v db) = true <-> stored_edge db g u v) /\
  (forall a b,
     nx.has_edge (_get_graph g db') a b = true <->
     nx.has_edge (_get_graph g db) a b = true /\ ~ same_pair a b u v) /\
  (forall d, d <> EdgeDoc g (Z.min u v) (Z.max u v) -> In d db' <-> In d db).
Proof.
  intros [N E S P] db'. unfold db', remove_edge. clear db'.
  destruct (u =? v) eqn:Huv; zbool; cbn [fst snd].
  - subst v. split; [|split].
    + split; [discriminate|]. intros [H|H]; apply S in H; lia.
    + intros a b. rewrite get_graph_has_edge. split; [|tauto].
      intros H. split; [assumption|]. intros [[-> ->]|[-> ->]];
        destruct H as [H|H]; apply S in H; lia.
    + tauto.
  - assert (Hab : (if v <? u then (v, u) else (u, v)) = (Z.min u v, Z.max u v)).
    { destruct (v <? u) eqn:L; zbool; f_equal; lia. }
    rewrite Hab. set (a := Z.min u v). set (b := Z.max u v).
    unfold remove. cbn [fst snd].
    assert (Hmm : (u < v /\ a = u /\ b = v) \/ (v < u /\ a = v /\ b = u))
      by (unfold a, b; lia).
    clearbody a b. clear Hab.
    assert (Hst : stored_edge db g u v <-> In (EdgeDoc g a b) db).
    { unfold stored_edge. split.
      - intros [H|H]; pose proof (S _ _ _ H);
          destruct Hmm as [(L & -> & ->)|(L & -> & ->)]; auto; lia.
      - destruct Hmm as [(L & -> & ->)|(L & -> & ->)]; auto. }
    assert (Hin : forall d,
              In d (List.filter (fun d => negb (Q.edge_of g a b d)) db) <->
              In d db /\ d <> EdgeDoc g a b).
    { intros d. rewrite filter_In, negb_true_iff. split; intros [H1 H2];
        (split; [assumption|]).
      - intros ->. simpl in H2. now rewrite !Z.eqb_refl in H2.
      - destruct (Q.edge_of g a b d) eqn:C; [|reflexivity].
        destruct d; simpl in C; try discriminate. zbool. subst. congruence. }
    split; [|split].
    + rewrite Hst, Nat.ltb_lt. symmetry. apply edge_count.
    + intros a' b'. rewrite !get_graph_has_edge. unfold stored_edge.
      rewrite !Hin. split.
      * intros H. split; [tauto|]. intros Hp.
        destruct H as [[H Hd]|[H Hd]]; pose proof (S _ _ _ H); apply Hd;
          f_equal; destruct Hp as [[-> ->]|[-> ->]]; lia.
      * intros [H Hp].
        destruct H as [H|H]; [left|right]; (split; [assumption|]);
          intros [= -> ->]; apply Hp; unfold same_pair; lia.
    + intros d Hd. rewrite Hin. tauto.
Qed.

Lemma remove_edge_effect_witness :
  snd (remove_edge 0 2 1 [NodeDoc 0 1 0 0; NodeDoc 0 2 5 5; EdgeDoc 0 1 2])
  = true.
Proof.
  apply (remove_edge_effect 0 2 1 (apply_edits
           [AddNode 0 1 0 0; AddNode 0 2 5 5; AddEdge 0 1 2] [])).
  - apply apply_edits_invariant, empty_invariant.
  - right. simpl. auto.
Defined.

(** ** The list of graphs *)

Section Sorting.

Context {A : Type}.
Variable key : A -> string.

Lemma sort_insert_Permutation (x : A) (l : list A) :
  Permutation (sort_insert key x l) (x :: l).
Proof.
  induction l as [|y l IH]; simpl; [reflexivity|].
  destruct (String.leb (key x) (key y)); [reflexivity|].
  etransitivity; [apply perm_skip, IH|apply perm_swap].
Qed.

Lemma py_sort_Permutation (l : list A) : Permutation (py_sort key l) l.
Proof.
  unfold py_sort. induction l as [|x l IH]; simpl; [constructor|].
  etransitivity; [apply sort_insert_Permutation|now constructor].
Qed.

Lemma sort_insert_Sorted (x : A) (l : list A) :
  Sorted (by_key key) l -> Sorted (by_key key) (sort_insert key x l).
Proof.
  induction l as [|y l IH]; simpl; intros Hs.
  - repeat constructor.
  - destruct (String.leb (key x) (key y)) eqn:L.
    + constructor; [assumption|]. now constructor.
    + inversion Hs as [|? ? Hl Hy]; subst. constructor; [now apply IH|].
      assert (Hyx : by_key key y x).
      { unfold by_key. destruct (String.leb_total (key x) (key y)); congruence. }
      destruct l as [|z l]; simpl.
      * now constructor.
      * destruct (String.leb (key x) (key z)); constructor; [assumption|].
        now inversion Hy.
Qed.

Lemma py_sort_Sorted (l : list A) : Sorted (by_key key) (py_sort key l).
Proof.
  unfold py_sort. induction l as [|x l IH]; simpl; [constructor|].
  now apply sort_insert_Sorted.
Qed.

End Sorting.

Lemma in_get_graph_infos (db : database) (i : Info.t) :
  In i (get_graph_infos db) <->
  exists g n, In (PropertiesDoc g n) db /\ i = info_of db g n.
Proof.
  unfold get_graph_infos.
  set (names := map _ (search is_properties db)).
  pose proof (py_sort_Permutation Info.name names) as Hp. split.
  - intros H. apply (Permutation_in _ Hp) in H. unfold names in H.
    apply in_map_iff in H. destruct H as (d & <- & Hd).
    apply in_search in Hd. destruct Hd as [Hd Hq].
    destruct d; try discriminate. now exists g_id, name.
  - intros (g & n & Hd & ->). apply (Permutation_in _ (Permutation_sym Hp)).
    unfold names. apply in_map_iff. exists (PropertiesDoc g n).
    split; [reflexivity|]. now apply in_search.
Qed.

(** [get_graph_infos] lists the graphs that have a 'properties' document,
    one entry for each such document, in the order of their names; the
    'iso' flag of an entry says whether its graph is in I. *)
Theorem get_graph_infos_sorted (db : database) :
  Sorted (by_key Info.name) (get_graph_infos db) /\
  length (get_graph_infos db) = length (search is_properties db) /\
  (forall i,
     In i (get_graph_infos db) <->
     exists g n, In (PropertiesDoc g n) db /\ i = info_of db g n) /\
  (forall i,
     In i (get_graph_infos db) ->
     (Info.iso i = true <-> In (Info.graph_id i) (isos db))).
Proof.
  split; [apply py_sort_Sorted|]. split; [|split; [apply in_get_graph_infos|]].
  - unfold get_graph_infos. rewrite (Permutation_length (py_sort_Permutation _ _)).
    apply length_map.
  - intros i Hi. apply in_get_graph_infos in Hi.
    destruct Hi as (g & n & _ & ->). simpl. rewrite existsb_exists. split.
    + intros (x & Hx & E). zbool. now subst.
    + intros H. exists g. split; [assumption|apply Z.eqb_refl].
Qed.

Lemma get_graph_infos_sorted_witness :
  get_graph_infos
    [PropertiesDoc 2 "path"; IsoDoc 1; PropertiesDoc 1 "edge";
     PropertiesDoc 0 "G"]
  = [info_of [IsoDoc 1] 0 "G"; info_of [IsoDoc 1] 1 "edge";
     info_of [IsoDoc 1] 2 "path"] /\
  Info.iso (info_of [IsoDoc 1] 1 "edge") = true.
Proof.
  split; [reflexivity|].
  apply (proj2 (proj2 (proj2 (get_graph_infos_sorted
           [PropertiesDoc 2 "path"; IsoDoc 1; PropertiesDoc 1 "edge";
            PropertiesDoc 0 "G"])))).
  - vm_compute. auto.
  - vm_compute. auto.
Defined.

(** ** The routes *)

(** [/erase_main_graph/<id>]: for id 0 the answer is 'false' and nothing is
    written; for any other id the answer is '0', and G (graph 0) is then
    the graph the id had, the empty graph when no document carries the id,
    while the other graphs are as before. *)
Theorem erase_main_graph_answer (graph_id : Z) (name : option string)
    (db : database) :
  (graph_id = 0 ->
   controller.erase_main_graph graph_id name db = Returns "false" db) /\
  (graph_id <> 0 ->
   exists db',
     controller.erase_main_graph graph_id name db = Returns "0" db' /\
     _get_graph 0 db' = _get_graph graph_id db /\
     ((forall d, In d db -> doc_g_id d <> graph_id) ->
      _get_graph 0 db' = nx.empty) /\
     (forall g', g' <> 0 -> _get_graph g' db' = _get_graph g' db)).
Proof.
  unfold controller.erase_main_graph. split.
  - intros ->. reflexivity.
  - intros Hne.
    destruct (erase_graph graph_id (Some 0) name db) as [e db'|e db'] eqn:E.
    + assert (He : e = ErasedTo 0).
      { unfold erase_graph in E.
        rewrite bool_decide_eq_false_2 in E by congruence. now injection E. }
      subst e. exists db'. split; [reflexivity|].
      destruct (erase_graph_graphs _ _ _ _ _ _ E) as (H1 & H6); [congruence|].
      split; [exact H1|]. split.
      * intros Hd. rewrite H1. now apply unknown_get_graph.
      * exact H6.
    + unfold erase_graph in E.
      rewrite bool_decide_eq_false_2 in E by congruence. discriminate.
Qed.

Lemma erase_main_graph_answer_witness :
  exists db',
    controller.erase_main_graph 1 None path_table = Returns "0" db' /\
    _get_graph 0 db' = _get_graph 1 path_table.
Proof.
  destruct (proj2 (erase_main_graph_answer 1 None path_table))
    as (db' & H1 & H2 & _); [lia|].
  exists db'. split; assumption.
Defined.

Lemma greatest_unique (m m' : Z) (l : list Z) :
  greatest m l -> greatest m' l -> m = m'.
Proof.
  intros [H1 H2] [H1' H2']. specialize (H2 _ H1'). specialize (H2' _ H1). lia.
Qed.

Lemma named_keeps (name : option string) (g : Z) (db : database) (d : document) :
  is_properties d = false -> In d db -> In d (named name g db).
Proof.
  intros Hp Hd. destruct name as [n|]; [|assumption].
  apply upsert_keeps; [|assumption]. now destruct d.
Qed.

(** [/save_main_graph]: for the id 0 the answer is 'False', capital first,
    and nothing is written; for another id the answer is the id and that
    graph is then the graph G, which stays as it is; without an id and
    without any node document the call raises [ValueError]; without an id
    otherwise the answer is one more than the greatest [g_id] of the node
    documents, no node document is lost, and the graph of that id is the
    graph G. *)
Theorem save_main_graph_answer (name : option string) (db : database) :
  controller.save_main_graph (Some 0) name db = Returns "False" db /\
  (forall g, g <> 0 ->
     exists db',
       controller.save_main_graph (Some g) name db
       = Returns (controller.str_int g) db' /\
       _get_graph g db' = _get_graph 0 db /\
       _get_graph 0 db' = _get_graph 0 db) /\
  ((forall d, In d db -> Q.is_node d = false) ->
   controller.save_main_graph None name db = Raises ValueError db) /\
  (forall m,
     greatest m (map doc_g_id (search Q.is_node db)) ->
     exists db',
       controller.save_main_graph None name db
       = Returns (controller.str_int (m + 1)) db' /\
       (forall d, In d db -> Q.is_node d = true -> In d db') /\
       (m + 1 <> 0 -> _get_graph (m + 1) db' = _get_graph 0 db)).
Proof.
  unfold controller.save_main_graph. split; [reflexivity|]. split; [|split].
  - intros g Hg.
    destruct (erase_graph 0 (Some g) name db) as [e db'|e db'] eqn:E;
      unfold erase_graph in E;
      rewrite bool_decide_eq_false_2 in E by congruence; [|discriminate].
    assert (He : e = ErasedTo g) by now injection E. subst e.
    exists db'. split; [reflexivity|].
    assert (E' : erase_graph 0 (Some g) name db = Returns (ErasedTo g) db').
    { unfold erase_graph. now rewrite bool_decide_eq_false_2 by congruence. }
    destruct (erase_graph_graphs _ _ _ _ _ _ E' Hg) as [H1 H2].
    split; [exact H1|]. apply H2. congruence.
  - intros Hn. unfold erase_graph.
    rewrite bool_decide_eq_false_2 by discriminate.
    apply search_nil in Hn. now rewrite Hn.
  - intros m Hm.
    destruct (erase_graph 0 None name db) as [e db'|e db'] eqn:E.
    + unfold erase_graph in E. rewrite bool_decide_eq_false_2 in E by discriminate.
      destruct (py_max (map doc_g_id (search Q.is_node db))) as [x|m'] eqn:Em;
        [discriminate|].
      apply py_max_greatest in Em.
      assert (m' = m) by (eapply greatest_unique; eassumption). subst m'.
      assert (He : e = ErasedTo (m + 1)) by now injection E. subst e.
      assert (E' : erase_graph 0 None name db = Returns (ErasedTo (m + 1)) db').
      { unfold erase_graph. rewrite bool_decide_eq_false_2 by discriminate.
        destruct (py_max (map doc_g_id (search Q.is_node db))) as [x|m'] eqn:Em';
          [|apply py_max_greatest in Em';
            assert (m' = m) by (eapply greatest_unique; eassumption); subst m';
            exact E].
        destruct (search Q.is_node db); [|discriminate].
        destruct Hm as [[] _]. }
      exists db'. split; [reflexivity|]. split.
      * intros d Hd Hnode. apply erase_graph_table in E'. subst db'.
        apply named_keeps; [now destruct d|]. unfold copied.
        apply in_app_iff. left. apply in_remove. split; [assumption|].
        unfold Q.of_graph. apply Z.eqb_neq.
        assert (Hle : doc_g_id d <= m).
        { apply Hm, in_map, in_search. now split. }
        lia.
      * intros Hne. now apply (erase_graph_graphs _ _ _ _ _ _ E').
    + exfalso. unfold erase_graph in E.
      rewrite bool_decide_eq_false_2 in E by discriminate.
      destruct (search Q.is_node db) as [|d l] eqn:S; [destruct Hm as [[] _]|].
      simpl in E. discriminate.
Qed.

Lemma save_main_graph_answer_witness :
  exists db',
    controller.save_main_graph None None path_table = Returns "3" db' /\
    _get_graph 3 db' = _get_graph 0 path_table.
Proof.
  destruct (proj2 (proj2 (proj2 (save_main_graph_answer None path_table))) 2)
    as (db' & H1 & _ & H3).
  - split; [vm_compute; auto 20|].
    intros x Hx. vm_compute in Hx.
    repeat (destruct Hx as [<-|Hx]; [lia|]). destruct Hx.
  - exists db'. split; [exact H1|]. apply H3. lia.
Defined.

(** ** The two views of I *)

(** The 'iso' flag [get_graph_dict] shows for a graph says whether the
    graph is in I, and every entry [get_graph_infos] has for the graph
    shows the same flag. *)
Theorem views_agree_on_iso (g : Z) (db : database) :
  (Dict.iso (get_graph_dict g db) = true <-> In g (isos db)) /\
  (forall i,
     In i (get_graph_infos db) -> Info.graph_id i = g ->
     Info.iso i = Dict.iso (get_graph_dict g db)).
Proof.
  split; [apply iso_flag|]. intros i Hi Hg.
  apply in_get_graph_infos in Hi. destruct Hi as (g' & n & _ & ->).
  simpl in Hg. subst g'. unfold info_of. cbn [Info.iso]. apply eq_true_iff_eq.
  rewrite iso_flag, existsb_exists. split.
  - intros (x & Hx & E). zbool. now subst.
  - intros H. exists g. split; [assumption|apply Z.eqb_refl].
Qed.

Lemma views_agree_on_iso_witness :
  Info.iso (info_of [PropertiesDoc 1 "edge"; IsoDoc 1] 1 "edge")
  = Dict.iso (get_graph_dict 1 [PropertiesDoc 1 "edge"; IsoDoc 1]).
Proof.
  apply (proj2 (views_agree_on_iso 1 [PropertiesDoc 1 "edge"; IsoDoc 1])).
  - vm_compute. auto.
  - reflexivity.
Defined.

(** ** Two matches that are always there *)

Lemma whole_graph_isomorphic (G : nx.Graph) :
  isomorphic (nx.subgraph G (list_to_set (nx.nodes G))) G.
Proof.
  exists (fun u => u). split; [|split; [|split]].
  - intros u Hu. now apply subgraph_nodes in Hu.
  - auto.
  - intros p Hp. exists p. split; [|reflexivity]. apply subgraph_nodes.
    split; [assumption|]. now apply elem_of_list_to_set, list_elem_of_In.
  - intros u v Hu Hv _. apply subgraph_nodes in Hu, Hv.
    apply subgraph_has_edge_in; tauto.
Qed.

(** When G itself is in I, the whole of G is reported: exactly one record
    has all the vertices of G, and its edges are the edges of G. *)
Theorem host_matches_itself (db : database) :
  In 0 (isos db) ->
  exists r,
    List.filter
      (fun r' => bool_decide
                   (vertex_set r' = list_to_set (nx.nodes (_get_graph 0 db))))
      (get_induced_subgraphs db) = [r] /\
    edges r = nx.edges (_get_graph 0 db).
Proof.
  intros Hin. set (H := _get_graph 0 db). set (S := list_to_set (nx.nodes H)).
  assert (Sub : subset_of S H).
  { intros u Hu. now apply elem_of_list_to_set, list_elem_of_In in Hu. }
  destruct (matcher_complete H H S (get_graph_NoDup 0 db) (get_graph_NoDup 0 db)
              Sub (whole_graph_isomorphic H)) as (gm & Hgm & Ek).
  destruct (record_of_subset db 0 gm (proj2 (in_matches db 0 gm) (conj Hin Hgm)))
    as (r & l1 & id0 & gm0 & l2 & Hf & _ & _ & Ek0 & ->).
  fold H in Hf. rewrite Ek in Hf, Ek0.
  exists (record_of H id0 gm0). split; [exact Hf|].
  simpl. rewrite Ek0. apply filter_all. intros e He.
  destruct (proj2 (get_graph_well_built 0 db) e He) as [H1 H2].
  apply andb_true_intro. split; apply bool_decide_eq_true;
    now apply elem_of_list_to_set, list_elem_of_In.
Qed.

Lemma host_matches_itself_witness :
  exists r,
    In r (get_induced_subgraphs (fst (add_iso 0 path_table))) /\
    edges r = [(1, 2); (2, 3)].
Proof.
  destruct (host_matches_itself (fst (add_iso 0 path_table))) as (r & Hf & He).
  - vm_compute. auto.
  - exists r. split; [|exact He].
    assert (H : In r [r]) by now left. rewrite <- Hf in H.
    now apply filter_In in H.
Defined.

(** A graph of I without vertices is always matched, by the empty subset:
    exactly one record has no vertex, and it has no edge. *)
Theorem empty_pattern_matches (db : database) (id : Z) :
  In id (isos db) ->
  nx.number_of_nodes (_get_graph id db) = 0%nat ->
  exists r,
    List.filter (fun r' => bool_decide (vertex_set r' = ∅))
      (get_induced_subgraphs db) = [r] /\
    nodes r = [] /\ edges r = [].
Proof.
  intros Hin H0.
  assert (HP : nx.nodes (_get_graph id db) = []).
  { unfold nx.number_of_nodes in H0. now destruct (nx.nodes _). }
  assert (Sub : subset_of ∅ (_get_graph 0 db)) by (intros u Hu; set_solver).
  assert (Iso : isomorphic (nx.subgraph (_get_graph 0 db) ∅) (_get_graph id db)).
  { exists (fun u => u). split; [|split; [|split]].
    - intros u Hu. apply subgraph_nodes in Hu. destruct Hu as [_ Hu].
      now apply not_elem_of_empty in Hu.
    - auto.
    - intros p Hp. rewrite HP in Hp. destruct Hp.
    - intros u v Hu. apply subgraph_nodes in Hu. destruct Hu as [_ Hu].
      now apply not_elem_of_empty in Hu. }
  destruct (matcher_complete _ _ ∅ (get_graph_NoDup 0 db) (get_graph_NoDup id db)
              Sub Iso) as (gm & Hgm & Ek).
  destruct (record_of_subset db id gm (proj2 (in_matches db id gm) (conj Hin Hgm)))
    as (r & l1 & id0 & gm0 & l2 & Hf & _ & _ & Ek0 & ->).
  rewrite Ek in Hf, Ek0.
  exists (record_of (_get_graph 0 db) id0 gm0). split; [exact Hf|].
  simpl. rewrite Ek0, elements_empty. split; [reflexivity|].
  apply filter_nothing. intros e _.
  apply andb_false_intro1, bool_decide_eq_false. set_solver.
Qed.

Lemma empty_pattern_matches_witness :
  exists r,
    In r (get_induced_subgraphs (fst (add_iso 9 path_table))) /\ nodes r = [].
Proof.
  destruct (empty_pattern_matches (fst (add_iso 9 path_table)) 9)
    as (r & Hf & Hn & _).
  - vm_compute. auto.
  - reflexivity.
  - exists r. split; [|exact Hn].
    assert (H : In r [r]) by now left. rewrite <- Hf in H.
    now apply filter_In in H.
Defined.

Lemma remove_iso_effect_witness :
  isos (fst (remove_iso 1 [IsoDoc 1; IsoDoc 2; IsoDoc 1])) = [2].
Proof.
  rewrite (proj1 (remove_iso_effect 1 [IsoDoc 1; IsoDoc 2; IsoDoc 1])).
  reflexivity.
Defined.
